(** * c99extend: the UTF-8 dynamic string library (string_utf8.c)

    A shallow embedding of [src/strings/string_utf8.c] and the properties
    of its buffer operations, its RFC 3629 validator and its two text
    normalizers.

    Conventions of the embedding.
    - A [char] is a [Byte.byte]; [(unsigned char)c] is [u8 c : Z].
    - [size_t] is a 64-bit unsigned integer, a [Z] reduced by [wrap].
      [uint32_t] is reduced by [wrap32].
    - A heap block is the list of its bytes; its size is the list's length.
      A [char*] is [option block], [None] being [NULL].
    - A [String*] is [option String], [None] being [NULL]; a function that
      mutates through the pointer returns the pointee's new state.
    - Reading or writing outside a block is undefined behaviour in C, and
      so is a [memcpy] between overlapping ranges; the embedding reports
      both as [Fault].
    - The two pointers of [str_concat] may name one object; its [src]
      argument says whether they do.
    - The two [while] loops run on fuel; the entry points supply enough of
      it, so [OutOfFuel] never leaves them on a buffer that is in bounds.
    - [malloc] and [realloc] are answered by an [allocator]: whether the
      request is granted and which (indeterminate) bytes fresh memory holds. *)

From Stdlib Require Import ZArith Lia.
From Stdlib.Strings Require Import Byte.
From stdpp Require Import base list.

Local Open Scope Z_scope.

(** ** Machine integers *)

Definition SIZE_MAX : Z := 2 ^ 64 - 1.

Definition wrap (x : Z) : Z := x mod 2 ^ 64.

Definition wrap32 (x : Z) : Z := x mod 2 ^ 32.

Definition u8 (b : byte) : Z := Z.of_N (Byte.to_N b).

Definition NUL : byte := Byte.x00.

(** ** Outcomes: a result, or undefined behaviour *)

Inductive outcome (A : Type) : Type :=
| Done (a : A)      (* the call returns *)
| Fault             (* an access outside a block *)
| OutOfFuel.        (* a loop of the embedding was given too few steps *)

Arguments Done {A} a.
Arguments Fault {A}.
Arguments OutOfFuel {A}.

Definition bind {A B : Type} (m : outcome A) (k : A -> outcome B) : outcome B :=
  match m with
  | Done a => k a
  | Fault => Fault
  | OutOfFuel => OutOfFuel
  end.

Notation "'let*' x ':=' m 'in' k" := (bind m (fun x => k))
  (at level 10, x name, m at level 100, k at level 200).

(** ** Memory blocks *)

Abbreviation block := (list byte).

Definition size (blk : block) : Z := Z.of_nat (length blk).

(** [blk[i]] as an rvalue. *)
Definition load (blk : block) (i : Z) : outcome byte :=
  if (0 <=? i) && (i <? size blk)
  then match blk !! Z.to_nat i with
       | Some b => Done b
       | None => Fault
       end
  else Fault.

(** [blk[i] = v]. *)
Definition store (blk : block) (i : Z) (v : byte) : outcome block :=
  if (0 <=? i) && (i <? size blk)
  then Done (<[Z.to_nat i := v]> blk)
  else Fault.

(** [memcpy(dst + doff, src + soff, n)] where [src] is another block, and
    [memmove] where it is the same one: the [n] bytes are read first, then
    written. *)
Definition memcpy (dst : block) (doff : Z) (src : block) (soff n : Z) : outcome block :=
  if (0 <=? doff) && (0 <=? soff) && (0 <=? n)
     && (soff + n <=? size src) && (doff + n <=? size dst)
  then Done (take (Z.to_nat doff) dst
             ++ take (Z.to_nat n) (drop (Z.to_nat soff) src)
             ++ drop (Z.to_nat (doff + n)) dst)
  else Fault.

Definition memmove (blk : block) (doff soff n : Z) : outcome block :=
  memcpy blk doff blk soff n.

(** [memcpy(blk + doff, blk + soff, n)], source and destination in one
    block: undefined as soon as the two ranges share a byte. *)
Definition memcpy_within (blk : block) (doff soff n : Z) : outcome block :=
  if (0 <? n) && (soff <? doff + n) && (doff <? soff + n)
  then Fault
  else memcpy blk doff blk soff n.

(** [strlen]: the offset of the first zero byte.  Running off the block
    without meeting one is a fault. *)
Fixpoint strlen_from (blk : block) (k : Z) : outcome Z :=
  match blk with
  | [] => Fault
  | b :: rest => if u8 b =? 0 then Done k else strlen_from rest (k + 1)
  end.

Definition strlen (blk : block) : outcome Z := strlen_from blk 0.

(** ** The allocator *)

Record allocator := {
  grants : bool;          (* does this request succeed? *)
  fresh : nat -> byte     (* indeterminate content of fresh memory, by offset *)
}.

Definition fresh_bytes (h : allocator) (from n : nat) : block :=
  map (fresh h) (seq from n).

Definition malloc (h : allocator) (n : Z) : option block :=
  if grants h then Some (fresh_bytes h 0 (Z.to_nat n)) else None.

(** [realloc(p, n)]: [malloc(n)] when [p] is [NULL]; otherwise, on success,
    the old content up to the smaller of both sizes, followed by fresh
    bytes.  On failure the old block stays as it is. *)
Definition realloc (h : allocator) (p : option block) (n : Z) : option block :=
  match p with
  | None => malloc h n
  | Some old =>
      if grants h
      then Some (take (Z.to_nat n) old
                 ++ fresh_bytes h (length old) (Z.to_nat n - length old))
      else None
  end.

(** ** The String struct *)

Record String := mkString {
  data : option block;
  len : Z;
  cap : Z
}.

(** [str_init] *)
Definition str_init : String :=
  {| data := None; len := 0; cap := 0 |}.

(** [str_from_cstr] *)
Definition str_from_cstr (h : allocator) (cstr : option block) : outcome String :=
  let s := str_init in
  match cstr with
  | None => Done s
  | Some src =>
      let* length := strlen src in
      let s_cap := wrap (length + 1) in
      match malloc h s_cap with
      | Some blk =>
          let* blk' := memcpy blk 0 src 0 s_cap in
          Done {| data := Some blk'; len := length; cap := s_cap |}
      | None => Done {| data := None; len := len s; cap := s_cap |}
      end
  end.

(** [str_free] *)
Definition str_free (s : option String) : option String :=
  match s with
  | None => None
  | Some _ => Some {| data := None; len := 0; cap := 0 |}
  end.

(** [str_data]: the block the returned pointer points into; the string
    literal is a block of its own holding the terminator only. *)
Definition str_data (s : option String) : block :=
  match s with
  | None => [NUL]
  | Some s' =>
      match data s' with
      | None => [NUL]
      | Some blk => blk
      end
  end.

(** The part of [str_reserve] after its null check. *)
Definition reserve (h : allocator) (s : String) (new_cap : Z) : String :=
  if new_cap >? cap s
  then match realloc h (data s) new_cap with
       | Some tmp => {| data := Some tmp; len := len s; cap := new_cap |}
       | None => s
       end
  else s.

(** [str_reserve] *)
Definition str_reserve (h : allocator) (s : option String) (new_cap : Z) : option String :=
  match s with
  | None => None
  | Some s' => Some (reserve h s' new_cap)
  end.

(** The part of [str_push_back] after its null check. *)
Definition push_back (h : allocator) (s : String) (c : byte) : outcome String :=
  let s1 :=
    if wrap (len s + 1) >=? cap s
    then let new_cap := if cap s =? 0 then 2 else wrap (cap s * 2) in
         reserve h s new_cap
    else s in
  match data s1 with
  | Some blk =>
      let* blk1 := store blk (len s1) c in
      let len' := wrap (len s1 + 1) in
      let* blk2 := store blk1 len' NUL in
      Done {| data := Some blk2; len := len'; cap := cap s1 |}
  | None => Done s1
  end.

(** [str_push_back] *)
Definition str_push_back (h : allocator) (s : option String) (c : byte)
  : outcome (option String) :=
  match s with
  | None => Done None
  | Some s' => let* s'' := push_back h s' c in Done (Some s'')
  end.

(** The [src] argument of [str_concat]: the very object [dest] points to,
    or another one (or [NULL]). *)
Inductive src_ptr : Type :=
| same_as_dest
| other (p : option String).

(** [str_concat].  When [src] is another object its block is read while
    the block of [dest] is written.  When [src == dest], the null checks,
    the lengths and the data pointer are those of [dest] itself, read anew
    after [str_reserve], and [memcpy] reads and writes one block. *)
Definition str_concat (h : allocator) (dest : option String) (src : src_ptr)
  : outcome (option String) :=
  match dest, src with
  | None, _ => Done None
  | Some d, other None => Done (Some d)
  | Some d, other (Some sr) =>
      match data sr with
      | None => Done (Some d)
      | Some sblk =>
          let needed := wrap (wrap (len d + len sr) + 1) in
          let d1 := if needed >? cap d then reserve h d needed else d in
          match data d1 with
          | Some dblk =>
              let* dblk' := memcpy dblk (len d1) sblk 0 (wrap (len sr + 1)) in
              Done (Some {| data := Some dblk';
                            len := wrap (len d1 + len sr);
                            cap := cap d1 |})
          | None => Done (Some d1)
          end
      end
  | Some d, same_as_dest =>
      match data d with
      | None => Done (Some d)
      | Some _ =>
          let needed := wrap (wrap (len d + len d) + 1) in
          let d1 := if needed >? cap d then reserve h d needed else d in
          match data d1 with
          | Some dblk =>
              let* dblk' := memcpy_within dblk (len d1) 0 (wrap (len d1 + 1)) in
              Done (Some {| data := Some dblk';
                            len := wrap (len d1 + len d1);
                            cap := cap d1 |})
          | None => Done (Some d1)
          end
      end
  end.

(** The struct and its block when [s && s->data], [None] when
    [!s || !s->data]. *)
Definition storage (s : option String) : option (String * block) :=
  match s with
  | None => None
  | Some s' =>
      match data s' with
      | None => None
      | Some blk => Some (s', blk)
      end
  end.

(** [str_plus] *)
Definition str_plus (h : allocator) (s1 s2 : option String) : outcome String :=
  match storage s1 with
  | None => str_from_cstr h (Some (str_data s2))
  | Some (a, ablk) =>
      match storage s2 with
      | None => str_from_cstr h (Some (str_data s1))
      | Some (b, bblk) =>
          let total_len := wrap (len a + len b) in
          let r_cap := wrap (total_len + 1) in
          match malloc h r_cap with
          | Some blk =>
              let* blk1 := memcpy blk 0 ablk 0 (len a) in
              let* blk2 := memcpy blk1 (len a) bblk 0 (wrap (len b + 1)) in
              Done {| data := Some blk2; len := total_len; cap := r_cap |}
          | None => Done {| data := None; len := 0; cap := r_cap |}
          end
      end
  end.

(** ** UTF-8 validation (RFC 3629) *)

(** The [if]/[else if] chain on the lead byte: the seed of the codepoint and
    [extraBytes], or [None] for [return false]. *)
Definition lead_byte (b0 : Z) : option (Z * Z) :=
  if b0 <=? 0x7F then Some (b0, 0)
  else if (b0 >=? 0xC2) && (b0 <=? 0xDF) then Some (Z.land b0 0x1F, 1)
  else if (b0 >=? 0xE0) && (b0 <=? 0xEF) then Some (Z.land b0 0x0F, 2)
  else if (b0 >=? 0xF0) && (b0 <=? 0xF4) then Some (Z.land b0 0x07, 3)
  else None.

(** The [for] loop over the continuation bytes, [n] iterations from [j] on:
    the codepoint, or [None] for [return false]. *)
Fixpoint continuation_bytes (n : nat) (data : block) (i j codepoint : Z)
  : outcome (option Z) :=
  match n with
  | O => Done (Some codepoint)
  | S n' =>
      let* bx := load data (wrap (wrap (i + 1) + j)) in
      if negb (Z.land (u8 bx) 0xC0 =? 0x80) then Done None
      else continuation_bytes n' data i (wrap (j + 1))
             (wrap32 (Z.lor (wrap32 (Z.shiftl codepoint 6)) (Z.land (u8 bx) 0x3F)))
  end.

(** The [switch] on [extraBytes]: [false] where the code returns false. *)
Definition codepoint_ok (extraBytes codepoint : Z) : bool :=
  if extraBytes =? 1 then negb (codepoint <? 0x80)
  else if extraBytes =? 2 then
    negb (codepoint <? 0x800)
    && negb ((codepoint >=? 0xD800) && (codepoint <=? 0xDFFF))
  else if extraBytes =? 3 then
    negb (codepoint <? 0x10000) && negb (codepoint >? 0x10FFFF)
  else true.

(** The [while (i < length)] loop. *)
Fixpoint validate_loop (fuel : nat) (data : block) (length i : Z) : outcome bool :=
  if i <? length then
    match fuel with
    | O => OutOfFuel
    | S fuel' =>
        let* b0 := load data i in
        match lead_byte (u8 b0) with
        | None => Done false
        | Some (codepoint, extraBytes) =>
            if wrap (i + extraBytes) >=? length then Done false
            else
              let* r := continuation_bytes (Z.to_nat extraBytes) data i 0 codepoint in
              match r with
              | None => Done false
              | Some codepoint' =>
                  if codepoint_ok extraBytes codepoint'
                  then validate_loop fuel' data length (wrap (i + wrap (extraBytes + 1)))
                  else Done false
              end
        end
    end
  else Done true.

(** [utf8_validate].  Every iteration advances [i], so [length] steps are
    enough fuel. *)
Definition utf8_validate (data : option block) (length : Z) : outcome bool :=
  match data with
  | None => Done true
  | Some blk => validate_loop (Z.to_nat length) blk length 0
  end.

(** [str_validate_utf8] *)
Definition str_validate_utf8 (s : option String) : outcome bool :=
  match s with
  | None => Done true
  | Some s' => utf8_validate (data s') (len s')
  end.

(** What [str_preflight_utf8] prints. *)
Inductive printed : Type :=
| preflight_failed     (* "Preflight failed: string is not valid UTF-8." *)
| preflight_success.   (* "Preflight success: string is valid UTF-8." *)

(** [str_preflight_utf8]: the returned flag and the line printed, if any. *)
Definition str_preflight_utf8 (s : option String) : outcome (bool * option printed) :=
  match storage s with
  | None => Done (true, None)
  | Some (s', blk) =>
      let* ok := utf8_validate (Some blk) (len s') in
      Done (ok, Some (if ok then preflight_success else preflight_failed))
  end.

(** ** BOM support *)

(** [str_remove_utf8_bom]: the pointee's new state and the returned flag. *)
Definition str_remove_utf8_bom (s : option String) : outcome (option String * bool) :=
  match storage s with
  | None => Done (s, false)
  | Some (s', blk) =>
      if len s' <? 3 then Done (s, false)
      else
        let* b0 := load blk 0 in
        let* b1 := load blk 1 in
        let* b2 := load blk 2 in
        if (u8 b0 =? 0xEF) && (u8 b1 =? 0xBB) && (u8 b2 =? 0xBF) then
          let new_len := wrap (len s' - 3) in
          let* blk1 := memmove blk 0 3 new_len in
          let* blk2 := store blk1 new_len NUL in
          Done (Some {| data := Some blk2; len := new_len; cap := cap s' |}, true)
        else Done (s, false)
  end.

(** ** CRLF / LF handling *)

(** The [while (s->len > 0)] loop, on the block and the length. *)
Fixpoint strip_loop (fuel : nat) (blk : block) (s_len : Z) : outcome (block * Z) :=
  if s_len >? 0 then
    match fuel with
    | O => OutOfFuel
    | S fuel' =>
        let* last_char := load blk (wrap (s_len - 1)) in
        if (u8 last_char =? 10) || (u8 last_char =? 13) then
          let* blk' := store blk (wrap (s_len - 1)) NUL in
          strip_loop fuel' blk' (wrap (s_len - 1))
        else Done (blk, s_len)
    end
  else Done (blk, s_len).

(** [str_strip_crlf].  Every iteration shortens the string by one, so
    [s->len] steps are enough fuel. *)
Definition str_strip_crlf (s : option String) : outcome (option String) :=
  match storage s with
  | None => Done s
  | Some (s', blk) =>
      if len s' =? 0 then Done s
      else
        let* r := strip_loop (Z.to_nat (len s')) blk (len s') in
        Done (Some {| data := Some (fst r); len := snd r; cap := cap s' |})
  end.

(** ** Notions the properties are stated with *)

(** The logical bytes of a buffer: the first [len] bytes of its storage. *)
Definition content (s : String) : list byte :=
  match data s with
  | None => []
  | Some blk => take (Z.to_nat (len s)) blk
  end.

Definition content_of (p : option String) : list byte :=
  match p with
  | None => []
  | Some s => content s
  end.

(** The Buffer invariant of the data model: without storage, length and
    capacity are zero; with storage, the capacity exceeds the length and the
    byte at offset [len] is the terminator. *)
Definition buffer_invariant (s : String) : Prop :=
  match data s with
  | None => len s = 0 /\ cap s = 0
  | Some blk => cap s > len s /\ blk !! Z.to_nat (len s) = Some NUL
  end.

(** What the C types and the allocator give besides: both fields are
    [size_t] values and [cap] is the size of the block [data] points to. *)
Definition well_allocated (s : String) : Prop :=
  0 <= len s <= SIZE_MAX /\ 0 <= cap s <= SIZE_MAX /\
  match data s with
  | None => True
  | Some blk => size blk = cap s
  end.

Definition Inv (s : String) : Prop :=
  well_allocated s /\ buffer_invariant s.

(** The weaker condition the normalizers need: the logical bytes lie inside
    the block. *)
Definition in_bounds (s : String) : Prop :=
  0 <= len s <= SIZE_MAX /\
  match data s with
  | None => True
  | Some blk => len s <= size blk
  end.

(** The same for a [String*]: a null pointer, or a buffer under its
    invariant. *)
Definition Inv_ptr (p : option String) : Prop :=
  match p with
  | None => True
  | Some s => Inv s
  end.

(** The UTF-8 byte order mark. *)
Definition BOM : list byte := [Byte.xef; Byte.xbb; Byte.xbf].

(** Carriage return or line feed. *)
Definition is_crlf (b : byte) : bool := (u8 b =? 10) || (u8 b =? 13).

(** The bytes of a C string: those before the first zero byte. *)
Fixpoint until_nul (l : list byte) : list byte :=
  match l with
  | [] => []
  | b :: rest => if u8 b =? 0 then [] else b :: until_nul rest
  end.

(** The buffer that holds exactly the bytes [l] and their terminator. *)
Definition String_of (l : list byte) : String :=
  {| data := Some (l ++ [NUL]);
     len := Z.of_nat (length l);
     cap := Z.of_nat (length l) + 1 |}.

(** The logical bytes [str_plus] produces when its allocation is granted:
    both contents when both sides have storage, otherwise the C string of
    the side it copies. *)
Definition plus_content (p q : option String) : list byte :=
  match storage p, storage q with
  | None, _ => until_nul (content_of q)
  | Some _, None => until_nul (content_of p)
  | Some _, Some _ => content_of p ++ content_of q
  end.

(** ** Well-formed UTF-8, as RFC 3629 and the specification word it *)

(** The number of continuation bytes a lead byte announces: none for
    00-7F, one for C2-DF, two for E0-EF, three for F0-F4; any other byte
    (80-BF, C0-C1, F5-FF) is no lead byte. *)
Definition continuation_count (b0 : Z) : option nat :=
  if (0x00 <=? b0) && (b0 <=? 0x7F) then Some 0%nat
  else if (0xC2 <=? b0) && (b0 <=? 0xDF) then Some 1%nat
  else if (0xE0 <=? b0) && (b0 <=? 0xEF) then Some 2%nat
  else if (0xF0 <=? b0) && (b0 <=? 0xF4) then Some 3%nat
  else None.

(** A continuation byte has the top bits 10. *)
Definition is_continuation (b : byte) : bool := u8 b / 64 =? 2.

(** The bits of the codepoint a lead byte carries: all seven of an ASCII
    byte, the low five, four or three of the lead byte of a sequence of
    two, three or four bytes. *)
Definition lead_payload (n : nat) (b0 : Z) : Z :=
  match n with
  | 0%nat => b0
  | 1%nat => b0 mod 32
  | 2%nat => b0 mod 16
  | _ => b0 mod 8
  end.

(** Each continuation byte brings six more bits. *)
Definition accumulate (acc : Z) (c : byte) : Z := acc * 64 + u8 c mod 64.

(** The codepoint a lead byte and its continuation bytes decode to. *)
Definition decode (b0 : byte) (conts : list byte) : Z :=
  fold_left accumulate conts (lead_payload (length conts) (u8 b0)).

(** The least codepoint that needs [n] continuation bytes; anything
    smaller is overlong. *)
Definition min_codepoint (n : nat) : Z :=
  match n with
  | 0%nat => 0
  | 1%nat => 0x80
  | 2%nat => 0x800
  | _ => 0x10000
  end.

(** One encoded codepoint: a lead byte, as many continuation bytes as it
    announces, not overlong, no surrogate, not above U+10FFFF. *)
Inductive encoding : list byte -> Prop :=
| encoding_intro (b0 : byte) (conts : list byte) :
    continuation_count (u8 b0) = Some (length conts) ->
    Forall (fun c => is_continuation c = true) conts ->
    min_codepoint (length conts) <= decode b0 conts ->
    ~ (0xD800 <= decode b0 conts <= 0xDFFF) ->
    decode b0 conts <= 0x10FFFF ->
    encoding (b0 :: conts).

(** A well-formed UTF-8 string: encodings, one after the other. *)
Inductive well_formed_utf8 : list byte -> Prop :=
| wf_empty : well_formed_utf8 []
| wf_encoding (enc rest : list byte) :
    encoding enc -> well_formed_utf8 rest -> well_formed_utf8 (enc ++ rest).

(** ** The grammar of RFC 3629, section 4

<<
   UTF8-octets = *( UTF8-char )
   UTF8-char   = UTF8-1 / UTF8-2 / UTF8-3 / UTF8-4
   UTF8-1      = %x00-7F
   UTF8-2      = %xC2-DF UTF8-tail
   UTF8-3      = %xE0 %xA0-BF UTF8-tail / %xE1-EC 2( UTF8-tail ) /
                 %xED %x80-9F UTF8-tail / %xEE-EF 2( UTF8-tail )
   UTF8-4      = %xF0 %x90-BF 2( UTF8-tail ) / %xF1-F3 3( UTF8-tail ) /
                 %xF4 %x80-8F 2( UTF8-tail )
   UTF8-tail   = %x80-BF
>> *)

Definition between (lo hi : Z) (b : byte) : Prop := lo <= u8 b <= hi.

Definition UTF8_tail (b : byte) : Prop := between 0x80 0xBF b.

Inductive UTF8_char : list byte -> Prop :=
| UTF8_1 (b : byte) :
    between 0x00 0x7F b -> UTF8_char [b]
| UTF8_2 (b t : byte) :
    between 0xC2 0xDF b -> UTF8_tail t -> UTF8_char [b; t]
| UTF8_3_E0 (b c t : byte) :
    between 0xE0 0xE0 b -> between 0xA0 0xBF c -> UTF8_tail t ->
    UTF8_char [b; c; t]
| UTF8_3_E1_EC (b t1 t2 : byte) :
    between 0xE1 0xEC b -> UTF8_tail t1 -> UTF8_tail t2 ->
    UTF8_char [b; t1; t2]
| UTF8_3_ED (b c t : byte) :
    between 0xED 0xED b -> between 0x80 0x9F c -> UTF8_tail t ->
    UTF8_char [b; c; t]
| UTF8_3_EE_EF (b t1 t2 : byte) :
    between 0xEE 0xEF b -> UTF8_tail t1 -> UTF8_tail t2 ->
    UTF8_char [b; t1; t2]
| UTF8_4_F0 (b c t1 t2 : byte) :
    between 0xF0 0xF0 b -> between 0x90 0xBF c -> UTF8_tail t1 -> UTF8_tail t2 ->
    UTF8_char [b; c; t1; t2]
| UTF8_4_F1_F3 (b t1 t2 t3 : byte) :
    between 0xF1 0xF3 b -> UTF8_tail t1 -> UTF8_tail t2 -> UTF8_tail t3 ->
    UTF8_char [b; t1; t2; t3]
| UTF8_4_F4 (b c t1 t2 : byte) :
    between 0xF4 0xF4 b -> between 0x80 0x8F c -> UTF8_tail t1 -> UTF8_tail t2 ->
    UTF8_char [b; c; t1; t2].

Inductive UTF8_octets : list byte -> Prop :=
| UTF8_octets_nil : UTF8_octets []
| UTF8_octets_char (c rest : list byte) :
    UTF8_char c -> UTF8_octets rest -> UTF8_octets (c ++ rest).

(** ** Sample values *)

(** The block holding the given byte values. *)
Definition bytes_of (l : list Z) : block :=
  map (fun z => match Byte.of_N (Z.to_N z) with Some b => b | None => NUL end) l.

(** An allocator that grants the request, fresh memory reading AA, and one
    that refuses it. *)
Definition ok_heap : allocator := {| grants := true; fresh := fun _ => Byte.xaa |}.

Definition no_heap : allocator := {| grants := false; fresh := fun _ => Byte.xaa |}.

Definition bom_hi : String :=
  {| data := Some [Byte.xef; Byte.xbb; Byte.xbf; Byte.x68; Byte.x69; NUL];
     len := 5; cap := 6 |}.

Definition hello_crlf : String :=
  {| data := Some [Byte.x48; Byte.x69; Byte.x0d; Byte.x0a; Byte.x0d; Byte.x0a; NUL];
     len := 6; cap := 7 |}.

Definition double_bom : String :=
  {| data := Some [Byte.xef; Byte.xbb; Byte.xbf; Byte.xef; Byte.xbb; Byte.xbf;
                   Byte.x68; NUL];
     len := 7; cap := 8 |}.

Definition str_ab : String :=
  {| data := Some [Byte.x61; Byte.x62; NUL]; len := 2; cap := 3 |}.

Definition str_x0y : String :=
  {| data := Some [Byte.x78; NUL; Byte.x79; NUL]; len := 3; cap := 4 |}.

Definition str_z : String :=
  {| data := Some [Byte.x7a; NUL]; len := 1; cap := 2 |}.

Definition grinning_face : block := [Byte.xf0; Byte.x9f; Byte.x98; Byte.x80].

(** Equality of bytes is decidable. *)
#[local] Instance byte_eq_decision : EqDecision byte := Byte.byte_eq_dec.

(** ** Runs of calls *)

(** The invariant without its terminator clause: what [str_reserve]
    leaves behind, and all [str_push_back] needs. *)
Definition ready (s : String) : Prop :=
  well_allocated s /\
  match data s with
  | None => len s = 0 /\ cap s = 0
  | Some _ => len s < cap s
  end.



Definition bom_hi_crlf : String :=
  {| data := Some [Byte.xef; Byte.xbb; Byte.xbf; Byte.x68; Byte.x69;
                   Byte.x0d; Byte.x0a; NUL];
     len := 7; cap := 8 |}.

(** * Properties *)

(** ** Machine integers and bytes *)

Lemma wrap_small (x : Z) : 0 <= x <= SIZE_MAX -> wrap x = x.
Proof. unfold wrap, SIZE_MAX. intros H. apply Z.mod_small. lia. Qed.

Lemma wrap_range (x : Z) : 0 <= wrap x <= SIZE_MAX.
Proof.
  unfold wrap, SIZE_MAX.
  pose proof (Z.mod_pos_bound x (2 ^ 64) ltac:(lia)). lia.
Qed.

Lemma u8_range (b : byte) : 0 <= u8 b <= 255.
Proof. unfold u8. pose proof (Byte.to_N_bounded b). lia. Qed.

Lemma u8_inj (b c : byte) : u8 b = u8 c -> b = c.
Proof.
  unfold u8. intros H. apply N2Z.inj in H.
  pose proof (Byte.of_to_N b) as Hb. rewrite H, Byte.of_to_N in Hb.
  congruence.
Qed.

Lemma u8_NUL (b : byte) : u8 b = 0 <-> b = NUL.
Proof.
  split; [intros H; apply u8_inj; exact H | intros ->; reflexivity].
Qed.

(** ** Blocks *)

Lemma size_nonneg (blk : block) : 0 <= size blk.
Proof. unfold size. lia. Qed.

Lemma load_in (blk : block) (i : Z) :
  0 <= i < size blk ->
  exists b, load blk i = Done b /\ blk !! Z.to_nat i = Some b.
Proof.
  intros H. unfold load, size in *.
  destruct (lookup_lt_is_Some_2 blk (Z.to_nat i)) as [b Hb]; [lia|].
  exists b. rewrite Hb.
  replace (0 <=? i) with true by lia.
  replace (i <? Z.of_nat (length blk)) with true by lia.
  auto.
Qed.

Lemma load_lookup (blk : block) (i : Z) (b : byte) :
  0 <= i -> blk !! Z.to_nat i = Some b -> load blk i = Done b.
Proof.
  intros Hi Hb. pose proof (lookup_lt_Some _ _ _ Hb) as Hlt.
  destruct (load_in blk i) as [b' [-> Hb']]; [unfold size; lia|].
  congruence.
Qed.

Lemma store_in (blk : block) (i : Z) (v : byte) :
  0 <= i < size blk -> store blk i v = Done (<[Z.to_nat i := v]> blk).
Proof.
  intros H. unfold store.
  replace (0 <=? i) with true by lia.
  replace (i <? size blk) with true by lia.
  reflexivity.
Qed.

Lemma store_out (blk : block) (i : Z) (v : byte) :
  size blk <= i -> store blk i v = Fault.
Proof.
  intros H. unfold store.
  replace (i <? size blk) with false by lia.
  rewrite andb_false_r. reflexivity.
Qed.

Lemma memcpy_in (dst : block) (doff : Z) (src : block) (soff n : Z) :
  0 <= doff -> 0 <= soff -> 0 <= n ->
  soff + n <= size src -> doff + n <= size dst ->
  memcpy dst doff src soff n
  = Done (take (Z.to_nat doff) dst
          ++ take (Z.to_nat n) (drop (Z.to_nat soff) src)
          ++ drop (Z.to_nat (doff + n)) dst).
Proof.
  intros. unfold memcpy.
  replace (0 <=? doff) with true by lia.
  replace (0 <=? soff) with true by lia.
  replace (0 <=? n) with true by lia.
  replace (soff + n <=? size src) with true by lia.
  replace (doff + n <=? size dst) with true by lia.
  reflexivity.
Qed.

Lemma size_insert (blk : block) (i : nat) (v : byte) :
  size (<[i := v]> blk) = size blk.
Proof. unfold size. rewrite length_insert. reflexivity. Qed.

(** ** The null pointer *)

(** C9. Every public operation is total on a null [String*]: [str_free],
    [str_reserve], [str_push_back], [str_concat], [str_remove_utf8_bom] and
    [str_strip_crlf] return without touching anything
    ([str_remove_utf8_bom] returning false), [str_data] returns the empty
    C string rather than a null pointer, and [str_validate_utf8] returns
    true.  So do the remaining entry points: [str_preflight_utf8] returns
    true and prints nothing, [str_from_cstr] returns the empty String, and
    [str_plus] of two null pointers returns. *)
Theorem C9_null_pointer_total :
  str_free None = None
  /\ (forall h new_cap, str_reserve h None new_cap = None)
  /\ (forall h c, str_push_back h None c = Done None)
  /\ (forall h src, str_concat h None src = Done None)
  /\ (forall h dest, str_concat h dest (other None) = Done dest)
  /\ str_remove_utf8_bom None = Done (None, false)
  /\ str_strip_crlf None = Done None
  /\ (str_data None = [NUL] /\ strlen (str_data None) = Done 0)
  /\ str_validate_utf8 None = Done true
  /\ str_preflight_utf8 None = Done (true, None)
  /\ (forall h, str_from_cstr h None = Done str_init)
  /\ (forall h, exists r, str_plus h None None = Done r).
Proof.
  repeat split; try reflexivity.
  - intros h [d|]; reflexivity.
  - intros h. unfold str_plus, str_from_cstr, malloc. simpl.
    destruct (grants h); eexists; reflexivity.
Qed.

(** C10. [utf8_validate(NULL, length)] returns true for every [length],
    zero or not; it returns without a single load. *)
Theorem C10_null_data_valid (length : Z) :
  utf8_validate None length = Done true.
Proof. reflexivity. Qed.

(** The same through a [String] whose [data] is null, whatever its [len]. *)
Lemma str_validate_utf8_no_storage (s : String) :
  data s = None -> str_validate_utf8 (Some s) = Done true.
Proof. intros H. unfold str_validate_utf8. rewrite H. reflexivity. Qed.

(** ** Allocation failure *)

(** [str_reserve] leaves the buffer as it was when the allocator refuses. *)
Lemma reserve_refused (h : allocator) (s : String) (new_cap : Z) :
  grants h = false -> reserve h s new_cap = s.
Proof.
  intros Hg. unfold reserve, realloc, malloc. rewrite Hg.
  destruct (new_cap >? cap s); [destruct (data s)|]; reflexivity.
Qed.

(** So does [str_push_back] on a buffer without storage. *)
Lemma push_back_refused_no_storage (h : allocator) (s : String) (c : byte) :
  grants h = false -> data s = None -> push_back h s c = Done s.
Proof.
  intros Hg Hd. unfold push_back. rewrite reserve_refused by exact Hg.
  destruct (wrap (len s + 1) >=? cap s); rewrite Hd; reflexivity.
Qed.

(** But on a full buffer that has storage it writes all the same: the
    byte lands in the terminator's slot and the new terminator behind the
    block. *)
Lemma push_back_refused_overrun (h : allocator) (s : String) (c : byte) :
  grants h = false -> Inv s -> data s <> None -> cap s = len s + 1 ->
  push_back h s c = Fault.
Proof.
  intros Hg [(Hl & Hc & Hsz) Hi] Hd Hfull. unfold push_back.
  rewrite reserve_refused by exact Hg.
  destruct (wrap (len s + 1) >=? cap s);
    (destruct (data s) as [blk|]; [|congruence]);
    rewrite store_in by lia; cbn [bind];
    rewrite wrap_small by lia;
    rewrite store_out by (rewrite size_insert; lia); reflexivity.
Qed.

(** [str_concat] is as silent on a destination without storage, and
    overruns a destination that has storage but not the room. *)
Lemma concat_refused_no_storage (h : allocator) (d : String) (src : src_ptr) :
  grants h = false -> data d = None -> str_concat h (Some d) src = Done (Some d).
Proof.
  intros Hg Hd. unfold str_concat.
  destruct src as [|[sr|]]; [rewrite Hd; reflexivity | | reflexivity].
  destruct (data sr); [|reflexivity].
  rewrite reserve_refused by exact Hg.
  destruct (_ >? _); rewrite Hd; reflexivity.
Qed.

Lemma concat_refused_overrun (h : allocator) (d sr : String) :
  grants h = false -> Inv d -> Inv sr -> data d <> None -> data sr <> None ->
  cap d < len d + len sr + 1 <= SIZE_MAX ->
  str_concat h (Some d) (other (Some sr)) = Fault.
Proof.
  intros Hg [(Hl & Hc & Hsz) Hi] [(Hls & Hcs & Hss) His] Hd Hs Hfull.
  unfold str_concat. rewrite reserve_refused by exact Hg.
  unfold buffer_invariant in His.
  destruct (data sr) as [sblk|]; [|congruence].
  destruct (_ >? _); (destruct (data d) as [dblk|]; [|congruence]);
    rewrite (wrap_small (len sr + 1)) by lia;
    unfold memcpy;
    replace (len d + (len sr + 1) <=? size dblk) with false by lia;
    rewrite andb_false_r; reflexivity.
Qed.

(** C2, at the inputs where the code departs from it.  The buffer
    [{"ab", len 2, cap 3}] is what [str_from_cstr("ab")] returns.  With the
    allocator refusing, [str_push_back] stores the byte at offset 2, sets
    the length to 3 and stores the terminator at offset 3, outside the
    3-byte block; [str_concat] copies two bytes to offset 2 of it; and
    [str_from_cstr] and [str_plus] return a struct whose [cap] is the size
    they asked for, not the empty String. *)
Theorem C2_allocation_failure_observed :
  Inv str_ab /\ Inv str_z
  /\ str_from_cstr ok_heap (Some [Byte.x61; Byte.x62; NUL]) = Done str_ab
  /\ str_push_back no_heap (Some str_ab) Byte.x63 = Fault
  /\ str_concat no_heap (Some str_ab) (other (Some str_z)) = Fault
  /\ str_from_cstr no_heap (Some [Byte.x61; Byte.x62; NUL])
     = Done {| data := None; len := 0; cap := 3 |}
  /\ str_plus no_heap (Some str_ab) (Some str_z)
     = Done {| data := None; len := 0; cap := 4 |}
  /\ ~ buffer_invariant {| data := None; len := 0; cap := 3 |}.
Proof.
  repeat split; try reflexivity; try (vm_compute; congruence).
  intros [_ H]. discriminate.
Qed.

(** ** BOM stripping *)

Lemma content_storage (s : String) (blk : block) :
  data s = Some blk -> content s = take (Z.to_nat (len s)) blk.
Proof. intros H. unfold content. rewrite H. reflexivity. Qed.

Lemma content_no_storage (s : String) : data s = None -> content s = [].
Proof. intros H. unfold content. rewrite H. reflexivity. Qed.

Lemma content_length (s : String) :
  in_bounds s -> Z.of_nat (length (content s)) <= len s.
Proof.
  intros [Hr Hb]. unfold content. destruct (data s) as [blk|]; simpl; [|lia].
  rewrite length_take. lia.
Qed.

(** The three loads and the test of [str_remove_utf8_bom], read on the
    content. *)
Lemma bom_test (s : String) (blk : block) :
  data s = Some blk -> in_bounds s -> 3 <= len s ->
  exists b0 b1 b2,
    load blk 0 = Done b0 /\ load blk 1 = Done b1 /\ load blk 2 = Done b2
    /\ take 3 (content s) = [b0; b1; b2].
Proof.
  intros Hd [Hr Hb] H3. rewrite Hd in Hb. rewrite (content_storage s blk Hd).
  unfold size in Hb.
  destruct blk as [|b0 [|b1 [|b2 rest]]]; simpl in Hb; try lia.
  exists b0, b1, b2.
  repeat split; try (apply load_lookup; [lia | reflexivity]).
  replace (Z.to_nat (len s)) with (3 + Z.to_nat (len s - 3))%nat by lia.
  reflexivity.
Qed.

Lemma bom_bytes (b0 b1 b2 : byte) :
  (u8 b0 =? 0xEF) && (u8 b1 =? 0xBB) && (u8 b2 =? 0xBF) = true
  <-> [b0; b1; b2] = BOM.
Proof.
  unfold BOM. split.
  - intros H. apply andb_prop in H as [H H2]. apply andb_prop in H as [H0 H1].
    apply Z.eqb_eq in H0, H1, H2.
    rewrite (u8_inj b0 Byte.xef H0), (u8_inj b1 Byte.xbb H1), (u8_inj b2 Byte.xbf H2).
    reflexivity.
  - intros H. injection H as -> -> ->. reflexivity.
Qed.

(** Without a BOM at the front, nothing happens. *)
Lemma remove_bom_absent (s : String) :
  in_bounds s -> take 3 (content s) <> BOM ->
  str_remove_utf8_bom (Some s) = Done (Some s, false).
Proof.
  intros Hb Hno. unfold str_remove_utf8_bom, storage.
  destruct (data s) as [blk|] eqn:Hd; [|reflexivity].
  destruct (len s <? 3) eqn:H3; [reflexivity|].
  destruct (bom_test s blk Hd Hb ltac:(lia)) as (b0 & b1 & b2 & -> & -> & -> & Ht).
  simpl.
  destruct ((u8 b0 =? 0xEF) && (u8 b1 =? 0xBB) && (u8 b2 =? 0xBF)) eqn:Hbom;
    [|reflexivity].
  apply bom_bytes in Hbom. congruence.
Qed.

(** With one, the rest moves to the front. *)
Lemma remove_bom_present (s : String) :
  in_bounds s -> take 3 (content s) = BOM ->
  exists blk blk',
    data s = Some blk
    /\ 3 <= len s
    /\ str_remove_utf8_bom (Some s)
       = Done (Some {| data := Some blk'; len := len s - 3; cap := cap s |}, true)
    /\ take (Z.to_nat (len s - 3)) blk' = drop 3 (take (Z.to_nat (len s)) blk)
    /\ blk' !! Z.to_nat (len s - 3) = Some NUL
    /\ drop (Z.to_nat (len s - 2)) blk' = drop (Z.to_nat (len s - 2)) blk
    /\ size blk' = size blk.
Proof.
  intros Hb Hbom.
  destruct (data s) as [blk|] eqn:Hd;
    [|rewrite (content_no_storage s Hd) in Hbom; discriminate].
  assert (3 <= len s) as H3.
  { pose proof (content_length s Hb) as Hl.
    apply (f_equal length) in Hbom. rewrite length_take in Hbom.
    unfold BOM in Hbom. cbn [length] in Hbom. lia. }
  destruct Hb as [Hr Hb]. rewrite Hd in Hb.
  exists blk.
  exists (<[Z.to_nat (len s - 3) := NUL]>
            (take (Z.to_nat (len s - 3)) (drop 3 blk)
             ++ drop (Z.to_nat (len s - 3)) blk)).
  split; [reflexivity|]. split; [exact H3|].
  unfold str_remove_utf8_bom, storage. rewrite Hd.
  replace (len s <? 3) with false by lia.
  destruct (bom_test s blk Hd) as (b0 & b1 & b2 & -> & -> & -> & Ht);
    [split; [exact Hr | rewrite Hd; exact Hb] | exact H3 |].
  simpl. rewrite Ht in Hbom. apply bom_bytes in Hbom. rewrite Hbom.
  rewrite (wrap_small (len s - 3)) by lia.
  unfold memmove. rewrite memcpy_in by lia. cbn [bind].
  rewrite Z.add_0_l. change (Z.to_nat 0) with 0%nat. change (Z.to_nat 3) with 3%nat.
  rewrite take_0, app_nil_l.
  remember (Z.to_nat (len s - 3)) as n eqn:En. clear Ht.
  assert (length (take n (drop 3 blk) ++ drop n blk) = length blk) as Hlen.
  { rewrite length_app, length_take, !length_drop. unfold size in Hb. lia. }
  rewrite store_in by (unfold size; rewrite Hlen; unfold size in Hb; lia).
  cbn [bind]. rewrite <- En.
  split; [reflexivity|].
  assert (length (take n (drop 3 blk)) = n) as Hn.
  { rewrite length_take, length_drop. unfold size in Hb. lia. }
  repeat split.
  - rewrite take_insert_ge by lia.
    rewrite take_app_length' by (symmetry; exact Hn).
    rewrite skipn_firstn_comm. f_equal. lia.
  - apply list_lookup_insert_eq. unfold size in Hb. lia.
  - replace (Z.to_nat (len s - 2)) with (S n) by lia.
    rewrite drop_insert_lt by lia.
    rewrite drop_app_ge by lia. rewrite Hn, drop_drop. f_equal. lia.
  - rewrite size_insert. unfold size. rewrite Hlen. reflexivity.
Qed.

(** C7. If the length is at least 3 and the first three bytes are
    EF BB BF, [str_remove_utf8_bom] moves the remaining bytes three places
    to the left, takes 3 off the length, writes the terminator at the new
    end and returns true, the capacity and the block's size staying as they
    were; in every other case, an empty or short buffer included, it
    changes nothing and returns false. *)
Theorem C7_strip_utf8_bom (s : String) :
  in_bounds s ->
  (3 <= len s /\ take 3 (content s) = BOM ->
   exists blk',
     str_remove_utf8_bom (Some s)
     = Done (Some {| data := Some blk'; len := len s - 3; cap := cap s |}, true)
     /\ content {| data := Some blk'; len := len s - 3; cap := cap s |}
        = drop 3 (content s)
     /\ blk' !! Z.to_nat (len s - 3) = Some NUL
     /\ Some (size blk') = size <$> data s)
  /\ (~ (3 <= len s /\ take 3 (content s) = BOM) ->
      str_remove_utf8_bom (Some s) = Done (Some s, false)).
Proof.
  intros Hb. split.
  - intros [_ Hbom].
    destruct (remove_bom_present s Hb Hbom)
      as (blk & blk' & Hd & H3 & Hrun & Hc & Ht & _ & Hsz).
    exists blk'. repeat split; try assumption.
    + unfold content at 1. simpl. rewrite Hc, (content_storage s blk Hd).
      reflexivity.
    + rewrite Hd. simpl. congruence.
  - intros Hno. apply remove_bom_absent; [exact Hb|].
    intros Hbom. apply Hno. split; [|exact Hbom].
    destruct (remove_bom_present s Hb Hbom) as (_ & _ & _ & H3 & _). exact H3.
Qed.

Lemma C7_strip_utf8_bom_witness :
  in_bounds bom_hi
  /\ ((3 <= len bom_hi /\ take 3 (content bom_hi) = BOM ->
       exists blk',
         str_remove_utf8_bom (Some bom_hi)
         = Done (Some {| data := Some blk'; len := len bom_hi - 3;
                         cap := cap bom_hi |}, true)
         /\ content {| data := Some blk'; len := len bom_hi - 3;
                       cap := cap bom_hi |}
            = drop 3 (content bom_hi)
         /\ blk' !! Z.to_nat (len bom_hi - 3) = Some NUL
         /\ Some (size blk') = size <$> data bom_hi)
      /\ (~ (3 <= len bom_hi /\ take 3 (content bom_hi) = BOM) ->
          str_remove_utf8_bom (Some bom_hi) = Done (Some bom_hi, false))).
Proof.
  assert (in_bounds bom_hi) as Hb.
  { repeat split; vm_compute; congruence. }
  split; [exact Hb | exact (C7_strip_utf8_bom bom_hi Hb)].
Defined.

(** The example of the specification: BOM, "hi" becomes "hi", reported;
    a second call reports false and changes nothing. *)
Example bom_hi_run :
  exists s',
    str_remove_utf8_bom (Some bom_hi) = Done (Some s', true)
    /\ content s' = [Byte.x68; Byte.x69]
    /\ str_remove_utf8_bom (Some s') = Done (Some s', false).
Proof. eexists. repeat split. Qed.

(** ** CRLF stripping *)

(** Settle the comparisons of the goal that linear arithmetic decides. *)
Ltac cmp :=
  repeat match goal with
  | |- context [?a >? ?b] => rewrite (Z.gtb_ltb a b)
  | |- context [?a >=? ?b] => rewrite (Z.geb_leb a b)
  end;
  repeat match goal with
  | |- context [?a <? ?b] =>
      first [rewrite (proj2 (Z.ltb_lt a b)) by lia
            | rewrite (proj2 (Z.ltb_ge a b)) by lia]
  | |- context [?a <=? ?b] =>
      first [rewrite (proj2 (Z.leb_le a b)) by lia
            | rewrite (proj2 (Z.leb_gt a b)) by lia]
  | |- context [?a =? ?b] =>
      first [rewrite (proj2 (Z.eqb_eq a b)) by lia
            | rewrite (proj2 (Z.eqb_neq a b)) by lia]
  end.

(** What the loop of [str_strip_crlf] computes, by induction on the length:
    it stops at the last byte that is neither CR nor LF, having zeroed the
    bytes behind it. *)
Lemma strip_loop_spec (fuel : nat) : forall (n : nat) (blk : block),
  (n <= fuel)%nat -> Z.of_nat n <= size blk -> Z.of_nat n <= SIZE_MAX ->
  exists (blk' : block) (k : nat),
    strip_loop fuel blk (Z.of_nat n) = Done (blk', Z.of_nat k)
    /\ (k <= n)%nat
    /\ length blk' = length blk
    /\ take k blk' = take k blk
    /\ Forall (fun b => is_crlf b = true) (drop k (take n blk))
    /\ (forall b, last (take k blk) = Some b -> is_crlf b = false)
    /\ (k = n -> blk' = blk)
    /\ ((k < n)%nat -> blk' !! k = Some NUL).
Proof.
  induction fuel as [|fuel IH]; intros n blk Hf Hn Hmax.
  - assert (n = 0%nat) as -> by lia.
    exists blk, 0%nat. simpl. repeat split; try lia; try constructor.
    intros b Hb. discriminate.
  - destruct n as [|m].
    { exists blk, 0%nat. simpl. repeat split; try lia; try constructor.
      intros b Hb. discriminate. }
    cbn [strip_loop].
    cmp.
    replace (Z.of_nat (S m) - 1) with (Z.of_nat m) by lia.
    rewrite (wrap_small (Z.of_nat m)) by lia.
    destruct (load_in blk (Z.of_nat m)) as [b [-> Hb]]; [lia|].
    rewrite Nat2Z.id in Hb. cbn [bind].
    assert (take (S m) blk = take m blk ++ [b]) as Hsnoc.
    { apply take_S_r. exact Hb. }
    destruct ((u8 b =? 10) || (u8 b =? 13)) eqn:Hcr.
    + rewrite store_in by lia. cbn [bind]. rewrite Nat2Z.id.
      destruct (IH m (<[m:=NUL]> blk)) as (blk' & k & Hrun & Hk & Hlen & Htk & Hall & Hlast & Hsame & Hterm);
        [lia | rewrite size_insert; lia | lia |].
      exists blk', k. rewrite Hrun.
      rewrite length_insert in Hlen.
      rewrite take_insert_ge in Htk by lia.
      rewrite take_insert_ge in Hall by lia.
      rewrite take_insert_ge in Hlast by lia.
      repeat split; try assumption; try lia.
      * rewrite Hsnoc, drop_app_le by (rewrite length_take; unfold size in Hn; lia).
        apply Forall_app. split; [exact Hall|].
        constructor; [exact Hcr | constructor].
      * intros _. destruct (decide (k = m)) as [->|Hne].
        -- rewrite Hsame by reflexivity. apply list_lookup_insert_eq.
           unfold size in Hn. lia.
        -- apply Hterm. lia.
    + exists blk, (S m). repeat split; try lia.
      * rewrite drop_ge by (rewrite length_take; lia). constructor.
      * intros b' Hb'. rewrite Hsnoc, last_snoc in Hb'.
        injection Hb' as <-. exact Hcr.
Qed.

(** The run of [str_strip_crlf] on a buffer that is in bounds. *)
Lemma strip_crlf_spec (s : String) :
  in_bounds s ->
  exists (s' : String) (removed : list byte),
    str_strip_crlf (Some s) = Done (Some s')
    /\ in_bounds s'
    /\ content s = content s' ++ removed
    /\ Forall (fun b => is_crlf b = true) removed
    /\ (forall b, last (content s') = Some b -> is_crlf b = false)
    /\ (forall p b, p ++ [b] `prefix_of` content s -> is_crlf b = false ->
        (length (p ++ [b]) <= length (content s'))%nat)
    /\ len s' = len s - Z.of_nat (length removed)
    /\ cap s' = cap s
    /\ (removed = [] -> s' = s)
    /\ (removed <> [] ->
        exists blk', data s' = Some blk' /\ blk' !! Z.to_nat (len s') = Some NUL).
Proof.
  intros Hin. pose proof Hin as [Hr Hb].
  assert (forall (c1 removed : list byte),
            Forall (fun b => is_crlf b = true) removed ->
            forall p b, p ++ [b] `prefix_of` c1 ++ removed -> is_crlf b = false ->
                        (length (p ++ [b]) <= length c1)%nat) as Hmaximal.
  { intros c1 removed Hall p b [t Ht] Hnb.
    destruct (decide (length (p ++ [b]) <= length c1)%nat) as [|Hgt]; [assumption|].
    exfalso. rewrite length_app in Hgt. simpl in Hgt.
    assert ((c1 ++ removed) !! length p = Some b) as Hl.
    { rewrite Ht, <- app_assoc. simpl. apply list_lookup_middle. reflexivity. }
    rewrite lookup_app_r in Hl by lia.
    rewrite Forall_lookup in Hall. specialize (Hall _ _ Hl). simpl in Hall.
    congruence. }
  unfold str_strip_crlf, storage.
  destruct (data s) as [blk|] eqn:Hd.
  2:{ exists s, []. rewrite (content_no_storage s Hd).
      split; [reflexivity|]. split; [exact Hin|].
      repeat split;
        solve [ constructor | simpl; lia | congruence | discriminate
              | intros p b [t Ht]; destruct p; discriminate ]. }
  destruct (len s =? 0) eqn:H0.
  { apply Z.eqb_eq in H0. exists s, [].
    rewrite (content_storage s blk Hd), H0. simpl. rewrite take_0.
    split; [reflexivity|]. split; [exact Hin|].
    repeat split;
      solve [ constructor | simpl; lia | congruence | discriminate
            | intros p b [t Ht]; destruct p; discriminate ]. }
  apply Z.eqb_neq in H0.
  destruct (strip_loop_spec (Z.to_nat (len s)) (Z.to_nat (len s)) blk)
    as (blk' & k & Hrun & Hk & Hlen & Htk & Hall & Hlast & Hsame & Hterm);
    try lia.
  rewrite Z2Nat.id in Hrun by lia. rewrite Hrun. cbn [bind fst snd].
  exists {| data := Some blk'; len := Z.of_nat k; cap := cap s |},
         (drop k (take (Z.to_nat (len s)) blk)).
  assert (content {| data := Some blk'; len := Z.of_nat k; cap := cap s |}
          = take k blk) as Hc.
  { unfold content. simpl. rewrite Nat2Z.id. exact Htk. }
  rewrite Hc, (content_storage s blk Hd).
  assert (take (Z.to_nat (len s)) blk
          = take k blk ++ drop k (take (Z.to_nat (len s)) blk)) as Hsplit.
  { rewrite <- (take_drop k (take (Z.to_nat (len s)) blk)) at 1.
    rewrite take_take. f_equal. f_equal. lia. }
  assert (length (drop k (take (Z.to_nat (len s)) blk))
          = (Z.to_nat (len s) - k)%nat) as Hrl.
  { rewrite length_drop, length_take. unfold size in Hb. lia. }
  split; [reflexivity|].
  split. { unfold in_bounds, size. simpl. rewrite Hlen. unfold size in Hb. lia. }
  split; [exact Hsplit|]. split; [exact Hall|].
  split; [exact Hlast|].
  split.
  { intros p b Hp. rewrite Hsplit in Hp. revert Hp. apply Hmaximal. exact Hall. }
  simpl. rewrite Hrl. repeat split; try lia.
  - intros Hnil. rewrite Hnil in Hrl. simpl in Hrl.
    assert (k = Z.to_nat (len s)) as Hkn by lia.
    rewrite (Hsame Hkn), Hkn, Z2Nat.id by lia.
    destruct s; simpl in *; congruence.
  - intros Hne. exists blk'. split; [reflexivity|].
    rewrite Nat2Z.id. apply Hterm.
    destruct (decide (k < Z.to_nat (len s))%nat) as [|Hge]; [assumption|].
    exfalso. apply Hne. apply nil_length_inv. lia.
Qed.

(** C8. [str_strip_crlf] returns on every buffer that is in bounds.  The
    new content is a prefix of the old one; the bytes taken off are all CR
    or LF and the last byte kept is neither, so that no longer prefix ends
    in a byte other than CR and LF; the length goes down by one per byte
    taken off and the terminator stands at the new end; when nothing is
    taken off (an empty buffer, one without storage, one not ending in CR
    or LF) the buffer is as before; the capacity never changes. *)
Theorem C8_strip_trailing_crlf (s : String) :
  in_bounds s ->
  exists (s' : String) (removed : list byte),
    str_strip_crlf (Some s) = Done (Some s')
    /\ in_bounds s'
    /\ content s = content s' ++ removed
    /\ Forall (fun b => is_crlf b = true) removed
    /\ (forall b, last (content s') = Some b -> is_crlf b = false)
    /\ (forall p b, p ++ [b] `prefix_of` content s -> is_crlf b = false ->
        (length (p ++ [b]) <= length (content s'))%nat)
    /\ len s' = len s - Z.of_nat (length removed)
    /\ cap s' = cap s
    /\ (removed = [] -> s' = s)
    /\ (removed <> [] ->
        exists blk', data s' = Some blk' /\ blk' !! Z.to_nat (len s') = Some NUL).
Proof. exact (strip_crlf_spec s). Qed.

Lemma C8_strip_trailing_crlf_witness :
  in_bounds hello_crlf
  /\ exists (s' : String) (removed : list byte),
       str_strip_crlf (Some hello_crlf) = Done (Some s')
       /\ in_bounds s'
       /\ content hello_crlf = content s' ++ removed
       /\ Forall (fun b => is_crlf b = true) removed
       /\ (forall b, last (content s') = Some b -> is_crlf b = false)
       /\ (forall p b, p ++ [b] `prefix_of` content hello_crlf ->
           is_crlf b = false ->
           (length (p ++ [b]) <= length (content s'))%nat)
       /\ len s' = len hello_crlf - Z.of_nat (length removed)
       /\ cap s' = cap hello_crlf
       /\ (removed = [] -> s' = hello_crlf)
       /\ (removed <> [] ->
           exists blk',
             data s' = Some blk' /\ blk' !! Z.to_nat (len s') = Some NUL).
Proof.
  assert (in_bounds hello_crlf) as Hb.
  { repeat split; vm_compute; congruence. }
  split; [exact Hb | exact (C8_strip_trailing_crlf hello_crlf Hb)].
Defined.

(** The examples of the specification. *)
Example hello_crlf_run :
  exists s',
    str_strip_crlf (Some hello_crlf) = Done (Some s')
    /\ content s' = [Byte.x48; Byte.x69]
    /\ str_strip_crlf (Some s') = Done (Some s').
Proof. eexists. repeat split. Qed.

(** ** Repeated normalization *)

(** Stripping CR/LF a second time changes nothing. *)
Lemma strip_crlf_idempotent (s : String) :
  in_bounds s ->
  exists s1,
    str_strip_crlf (Some s) = Done (Some s1)
    /\ str_strip_crlf (Some s1) = Done (Some s1).
Proof.
  intros Hb.
  destruct (strip_crlf_spec s Hb)
    as (s1 & removed & Hrun & Hb1 & _ & _ & Hlast & _).
  exists s1. split; [exact Hrun|].
  destruct (strip_crlf_spec s1 Hb1)
    as (s2 & removed' & Hrun' & _ & Hc & Hall & _ & _ & _ & _ & Hsame & _).
  rewrite Hrun'. f_equal. f_equal. apply Hsame.
  destruct removed' as [|b t] using rev_ind; [reflexivity|]. exfalso.
  rewrite Forall_app, Forall_singleton in Hall. destruct Hall as [_ Hcr].
  specialize (Hlast b). rewrite Hc, app_assoc, last_snoc in Hlast.
  specialize (Hlast eq_refl). congruence.
Qed.

(** C4 as stated fails for the BOM: a buffer that starts with two BOMs
    loses one at each call, so the second call changes content and length
    again. *)
Lemma C4_bom_twice_counterexample :
  Inv double_bom
  /\ exists s1 s2,
       str_remove_utf8_bom (Some double_bom) = Done (Some s1, true)
       /\ str_remove_utf8_bom (Some s1) = Done (Some s2, true)
       /\ content s1 <> content s2
       /\ len s1 <> len s2.
Proof.
  split.
  - repeat split; vm_compute; congruence.
  - eexists. eexists. repeat split; vm_compute; congruence.
Qed.

(** C4, amended.  [str_strip_crlf] is idempotent: a second call leaves the
    whole buffer as the first one left it.  A second [str_remove_utf8_bom]
    changes nothing and returns false unless the content started with two
    BOMs, in which case it removes the second one as well. *)
Theorem C4_normalizers_repeated (s : String) :
  in_bounds s ->
  (exists s1,
     str_strip_crlf (Some s) = Done (Some s1)
     /\ str_strip_crlf (Some s1) = Done (Some s1))
  /\ (exists s1 r,
        str_remove_utf8_bom (Some s) = Done (Some s1, r)
        /\ (take 6 (content s) <> BOM ++ BOM ->
            str_remove_utf8_bom (Some s1) = Done (Some s1, false))
        /\ (take 6 (content s) = BOM ++ BOM ->
            exists s2,
              str_remove_utf8_bom (Some s1) = Done (Some s2, true)
              /\ content s2 = drop 6 (content s)
              /\ len s2 = len s - 6)).
Proof.
  intros Hb. split; [exact (strip_crlf_idempotent s Hb)|].
  assert (forall l : list byte, take 6 l = take 3 l ++ take 3 (drop 3 l)) as H6.
  { intros l. rewrite take_take_drop. reflexivity. }
  destruct (decide (take 3 (content s) = BOM)) as [Hbom|Hno].
  - destruct (remove_bom_present s Hb Hbom)
      as (blk & blk' & Hd & H3 & Hrun & Hc & Ht & _ & Hsz).
    set (s1 := {| data := Some blk'; len := len s - 3; cap := cap s |}).
    assert (content s1 = drop 3 (content s)) as Hc1.
    { unfold content at 1. simpl. rewrite Hc, (content_storage s blk Hd).
      reflexivity. }
    assert (in_bounds s1) as Hb1.
    { destruct Hb as [Hr Hb]. rewrite Hd in Hb.
      unfold in_bounds. simpl. rewrite Hsz. lia. }
    exists s1, true. split; [exact Hrun|]. split.
    + intros Hne. apply remove_bom_absent; [exact Hb1|].
      intros Hbom1. apply Hne. rewrite H6, Hbom, <- Hc1, Hbom1. reflexivity.
    + intros Heq. rewrite H6, Hbom in Heq. apply app_inv_head in Heq.
      rewrite <- Hc1 in Heq.
      destruct (remove_bom_present s1 Hb1 Heq)
        as (blk1 & blk1' & Hd1 & H31 & Hrun1 & Hc2 & _).
      eexists. split; [exact Hrun1|]. split; [|simpl; lia].
      unfold content at 1. cbn [data len]. rewrite Hc2.
      unfold s1 in Hd1. simpl in Hd1. injection Hd1 as <-.
      change (take (Z.to_nat (len s1)) blk') with (content s1).
      rewrite Hc1, drop_drop. reflexivity.
  - exists s, false.
    pose proof (remove_bom_absent s Hb Hno) as Hrun.
    split; [exact Hrun|]. split; [intros _; exact Hrun|].
    intros Heq. exfalso. apply Hno.
    rewrite H6 in Heq. apply app_inj_1 in Heq; [exact (proj1 Heq)|].
    apply (f_equal length) in Heq. rewrite !length_app, !length_take in Heq.
    rewrite length_take. unfold BOM in *. cbn [length] in *. lia.
Qed.

Lemma C4_normalizers_repeated_witness :
  in_bounds double_bom
  /\ ((exists s1,
         str_strip_crlf (Some double_bom) = Done (Some s1)
         /\ str_strip_crlf (Some s1) = Done (Some s1))
      /\ (exists s1 r,
            str_remove_utf8_bom (Some double_bom) = Done (Some s1, r)
            /\ (take 6 (content double_bom) <> BOM ++ BOM ->
                str_remove_utf8_bom (Some s1) = Done (Some s1, false))
            /\ (take 6 (content double_bom) = BOM ++ BOM ->
                exists s2,
                  str_remove_utf8_bom (Some s1) = Done (Some s2, true)
                  /\ content s2 = drop 6 (content double_bom)
                  /\ len s2 = len double_bom - 6))).
Proof.
  assert (in_bounds double_bom) as Hb.
  { repeat split; vm_compute; congruence. }
  split; [exact Hb | exact (C4_normalizers_repeated double_bom Hb)].
Defined.

(** ** C strings *)

Lemma until_nul_take_length (l : list byte) :
  take (length (until_nul l)) l = until_nul l.
Proof.
  induction l as [|b l IH]; simpl; [reflexivity|].
  destruct (u8 b =? 0); simpl; [reflexivity | rewrite IH; reflexivity].
Qed.

Lemma until_nul_terminated (l : list byte) (i : nat) :
  l !! i = Some NUL -> l !! length (until_nul l) = Some NUL.
Proof.
  revert i. induction l as [|b l IH]; intros i Hi; [discriminate|]. simpl.
  destruct (u8 b =? 0) eqn:Hb.
  - apply Z.eqb_eq, u8_NUL in Hb. subst b. reflexivity.
  - destruct i as [|i]; simpl in *.
    + injection Hi as ->. discriminate.
    + eapply IH. exact Hi.
Qed.

Lemma until_nul_length_le (l : list byte) (i : nat) :
  l !! i = Some NUL -> (length (until_nul l) <= i)%nat.
Proof.
  revert i. induction l as [|b l IH]; intros i Hi; [discriminate|]. simpl.
  destruct (u8 b =? 0) eqn:Hb; simpl; [lia|].
  destruct i as [|i]; simpl in *.
  - injection Hi as ->. discriminate.
  - specialize (IH i Hi). lia.
Qed.

(** The C string of a block that has a zero byte at offset [i] is that of
    its first [i] bytes. *)
Lemma until_nul_take (l : list byte) (i : nat) :
  l !! i = Some NUL -> until_nul l = until_nul (take i l).
Proof.
  revert i. induction l as [|b l IH]; intros i Hi; [discriminate|].
  destruct i as [|i]; simpl in *.
  - injection Hi as ->. reflexivity.
  - destruct (u8 b =? 0); [reflexivity|]. f_equal. apply IH. exact Hi.
Qed.

Lemma until_nul_no_nul (l : list byte) :
  NUL ∉ l -> until_nul l = l.
Proof.
  induction l as [|b l IH]; intros Hn; simpl; [reflexivity|].
  destruct (u8 b =? 0) eqn:Hb.
  - apply Z.eqb_eq, u8_NUL in Hb. subst b. exfalso. apply Hn. left.
  - f_equal. apply IH. intros Hin. apply Hn. right. exact Hin.
Qed.

Lemma until_nul_free (l : list byte) : NUL ∉ until_nul l.
Proof.
  induction l as [|b l IH]; simpl; [apply not_elem_of_nil|].
  destruct (u8 b =? 0) eqn:Hb; [apply not_elem_of_nil|].
  apply not_elem_of_cons. split; [|exact IH].
  intros <-. discriminate.
Qed.

Lemma strlen_from_spec (l : list byte) (i : nat) (k : Z) :
  l !! i = Some NUL ->
  strlen_from l k = Done (k + Z.of_nat (length (until_nul l))).
Proof.
  revert i k. induction l as [|b l IH]; intros i k Hi; [discriminate|]. simpl.
  destruct (u8 b =? 0) eqn:Hb; simpl.
  - f_equal. lia.
  - destruct i as [|i]; simpl in Hi.
    + injection Hi as ->. discriminate.
    + rewrite (IH i (k + 1) Hi). f_equal. lia.
Qed.

Lemma strlen_spec (l : list byte) (i : nat) :
  l !! i = Some NUL -> strlen l = Done (Z.of_nat (length (until_nul l))).
Proof. intros Hi. unfold strlen. rewrite (strlen_from_spec l i 0 Hi). reflexivity. Qed.

(** ** The allocator *)

Lemma fresh_bytes_length (h : allocator) (from n : nat) :
  length (fresh_bytes h from n) = n.
Proof. unfold fresh_bytes. rewrite length_map, length_seq. reflexivity. Qed.

Lemma malloc_granted (h : allocator) (n : Z) :
  grants h = true -> 0 <= n ->
  exists blk, malloc h n = Some blk /\ size blk = n.
Proof.
  intros Hg Hn. unfold malloc. rewrite Hg. eexists. split; [reflexivity|].
  unfold size. rewrite fresh_bytes_length. lia.
Qed.

Lemma malloc_refused (h : allocator) (n : Z) :
  grants h = false -> malloc h n = None.
Proof. intros Hg. unfold malloc. rewrite Hg. reflexivity. Qed.

(** ** Construction from a C string *)

(** [str_from_cstr] when the allocator grants the request: the C string
    and its terminator, in a block of exactly that size. *)
Lemma from_cstr_granted (h : allocator) (src : block) (i : nat) :
  grants h = true -> src !! i = Some NUL -> size src <= SIZE_MAX ->
  str_from_cstr h (Some src)
  = Done {| data := Some (until_nul src ++ [NUL]);
            len := Z.of_nat (length (until_nul src));
            cap := Z.of_nat (length (until_nul src)) + 1 |}.
Proof.
  intros Hg Hi Hmax. unfold str_from_cstr.
  rewrite (strlen_spec src i Hi). cbn [bind].
  pose proof (until_nul_length_le src i Hi) as Hle.
  pose proof (lookup_lt_Some _ _ _ Hi) as Hlt.
  set (n := length (until_nul src)) in *.
  unfold size in Hmax.
  rewrite (wrap_small (Z.of_nat n + 1)) by lia.
  destruct (malloc_granted h (Z.of_nat n + 1) Hg) as (blk & -> & Hsz); [lia|].
  rewrite memcpy_in by (unfold size in *; lia). cbn [bind].
  do 2 f_equal. f_equal.
  change (Z.to_nat 0) with 0%nat. rewrite take_0, drop_0, app_nil_l.
  rewrite drop_ge by (unfold size in Hsz; lia). rewrite app_nil_r.
  replace (Z.to_nat (Z.of_nat n + 1)) with (S n) by lia.
  rewrite (take_S_r src n NUL).
  - unfold n. rewrite until_nul_take_length. reflexivity.
  - unfold n. eapply until_nul_terminated. exact Hi.
Qed.

(** [str_from_cstr] when the allocator refuses: no storage, length 0, and
    the capacity it asked for. *)
Lemma from_cstr_refused (h : allocator) (src : block) (i : nat) :
  grants h = false -> src !! i = Some NUL -> size src <= SIZE_MAX ->
  str_from_cstr h (Some src)
  = Done {| data := None; len := 0;
            cap := Z.of_nat (length (until_nul src)) + 1 |}.
Proof.
  intros Hg Hi Hmax. unfold str_from_cstr.
  rewrite (strlen_spec src i Hi). cbn [bind].
  pose proof (until_nul_length_le src i Hi) as Hle.
  pose proof (lookup_lt_Some _ _ _ Hi) as Hlt.
  unfold size in Hmax.
  rewrite wrap_small by lia. rewrite (malloc_refused h _ Hg). reflexivity.
Qed.

(** ** Growth *)

Lemma SIZE_MAX_eq : SIZE_MAX = 18446744073709551615.
Proof. reflexivity. Qed.

(** [str_reserve] when it has to grow and the allocator grants it: the old
    bytes, then fresh ones, in a block of the new size. *)
Lemma reserve_granted (h : allocator) (s : String) (new_cap : Z) :
  grants h = true -> well_allocated s -> cap s < new_cap ->
  exists blk',
    reserve h s new_cap = {| data := Some blk'; len := len s; cap := new_cap |}
    /\ size blk' = new_cap
    /\ forall old, data s = Some old -> take (length old) blk' = old.
Proof.
  intros Hg (Hl & Hc & Hsz) Hlt. unfold reserve, realloc, malloc.
  cmp. rewrite Hg.
  destruct (data s) as [old|].
  - eexists. split; [reflexivity|]. unfold size in *.
    rewrite take_ge by lia. split.
    + rewrite length_app, fresh_bytes_length. lia.
    + intros old' [= <-]. rewrite take_app_length. reflexivity.
  - eexists. split; [reflexivity|]. unfold size.
    rewrite fresh_bytes_length. split; [lia | discriminate].
Qed.

Lemma reserve_enough (h : allocator) (s : String) (new_cap : Z) :
  new_cap <= cap s -> reserve h s new_cap = s.
Proof. intros Hle. unfold reserve. cmp. reflexivity. Qed.

(** [str_reserve] keeps the invariant of a buffer that has storage. *)
Lemma reserve_Inv (h : allocator) (s : String) (new_cap : Z) :
  Inv s -> data s <> None -> 0 <= new_cap <= SIZE_MAX ->
  Inv (reserve h s new_cap) /\ content (reserve h s new_cap) = content s.
Proof.
  intros [Hw Hi] Hd Hn.
  destruct (Z_le_gt_dec new_cap (cap s)) as [Hle|Hgt].
  { rewrite reserve_enough by exact Hle. repeat split; try apply Hw; exact Hi. }
  destruct (grants h) eqn:Hg.
  2:{ rewrite reserve_refused by exact Hg. repeat split; try apply Hw; exact Hi. }
  destruct (reserve_granted h s new_cap Hg Hw) as (blk' & -> & Hsz & Hold); [lia|].
  destruct Hw as (Hl & Hc & Hs). unfold buffer_invariant, content in *.
  destruct (data s) as [old|]; [|congruence]. destruct Hi as [Hlc Ht].
  specialize (Hold old eq_refl).
  repeat split; simpl; unfold size in *; try lia.
  - rewrite <- Hold in Ht. rewrite lookup_take_lt in Ht by lia. exact Ht.
  - rewrite <- Hold at 1. rewrite take_take. f_equal. lia.
Qed.

(** ** Appending a byte *)

(** [str_push_back] when the terminator slot is still inside the block
    after the append, or when growth is granted: the invariant is kept, the
    byte is appended, the capacity does not shrink. *)
Lemma push_back_spec (h : allocator) (s : String) (c : byte) :
  Inv s -> (grants h = true \/ len s + 1 < cap s) -> 2 * cap s <= SIZE_MAX ->
  exists s',
    push_back h s c = Done s'
    /\ Inv s'
    /\ content s' = content s ++ [c]
    /\ len s' = len s + 1
    /\ cap s <= cap s'.
Proof.
  intros [Hw Hi] Hg Hmax. pose proof Hw as (Hl & Hc & Hs).
  assert (len s + 1 <= SIZE_MAX) as Hl1.
  { pose proof SIZE_MAX_eq. unfold buffer_invariant in Hi. destruct (data s); lia. }
  assert (exists blk1 cap1,
             (if wrap (len s + 1) >=? cap s
              then reserve h s (if cap s =? 0 then 2 else wrap (cap s * 2))
              else s)
             = {| data := Some blk1; len := len s; cap := cap1 |}
             /\ size blk1 = cap1 /\ len s + 1 < cap1 <= SIZE_MAX
             /\ cap s <= cap1
             /\ take (Z.to_nat (len s)) blk1 = content s) as Hs1.
  { rewrite wrap_small by lia.
    destruct (Z_lt_ge_dec (len s + 1) (cap s)) as [Hroom|Hfull].
    - cmp. unfold buffer_invariant, content in *.
      destruct s as [[old|] l cp]; simpl in *; [|lia].
      exists old, cp. repeat split; try lia; reflexivity.
    - cmp. destruct Hg as [Hg|Hg]; [|lia].
      assert (cap s < (if cap s =? 0 then 2 else wrap (cap s * 2))
              /\ len s + 1 < (if cap s =? 0 then 2 else wrap (cap s * 2))
                 <= SIZE_MAX) as [Hgrow Hfit].
      { unfold buffer_invariant in Hi.
        destruct (Z.eq_dec (cap s) 0) as [H0|H0]; cmp.
        - pose proof SIZE_MAX_eq. destruct (data s); lia.
        - rewrite wrap_small by lia. destruct (data s); lia. }
      destruct (reserve_granted h s _ Hg Hw Hgrow) as (blk' & -> & Hsz & Hold).
      eexists. eexists. split; [reflexivity|].
      split; [exact Hsz|]. split; [exact Hfit|]. split; [lia|].
      unfold buffer_invariant, content in *.
      destruct (data s) as [old|].
      + rewrite <- (Hold old eq_refl) at 1. rewrite take_take. f_equal.
        unfold size in Hs. lia.
      + replace (len s) with 0 by lia. reflexivity. }
  destruct Hs1 as (blk1 & cap1 & Hs1 & Hsz1 & Hfit & Hcap & Hc1).
  unfold push_back. rewrite Hs1. cbn [data len cap].
  rewrite store_in by lia. cbn [bind].
  rewrite (wrap_small (len s + 1)) by lia.
  rewrite store_in by (rewrite size_insert; lia). cbn [bind].
  eexists. split; [reflexivity|].
  unfold Inv, well_allocated, buffer_invariant, content. cbn [data len cap].
  unfold size in *.
  repeat split; try lia.
  - rewrite !length_insert. lia.
  - apply list_lookup_insert_eq. rewrite length_insert. lia.
  - replace (Z.to_nat (len s + 1)) with (S (Z.to_nat (len s))) by lia.
    rewrite take_insert_ge by lia.
    erewrite take_S_r by (apply list_lookup_insert_eq; lia).
    rewrite take_insert_ge by lia. rewrite Hc1. reflexivity.
Qed.

(** ** Concatenation *)

(** The copy both concatenations end with: [m + 1] bytes of a terminated
    source written at offset [n] of a block that has room for them. *)
Lemma copy_terminated (dblk sblk : block) (n m : nat) :
  (n + m + 1 <= length dblk)%nat -> sblk !! m = Some NUL ->
  let r := take n dblk ++ take (m + 1) sblk ++ drop (n + m + 1) dblk in
  length r = length dblk
  /\ take (n + m) r = take n dblk ++ take m sblk
  /\ r !! (n + m)%nat = Some NUL.
Proof.
  intros Hroom Ht r. pose proof (lookup_lt_Some _ _ _ Ht) as Hm.
  assert (length (take n dblk) = n) as Hn by (rewrite length_take; lia).
  assert (take (m + 1) sblk = take m sblk ++ [NUL]) as Hs.
  { replace (m + 1)%nat with (S m) by lia. apply take_S_r. exact Ht. }
  assert (length (take m sblk) = m) as Hlm by (rewrite length_take; lia).
  unfold r. rewrite Hs. repeat split.
  - rewrite !length_app, Hn, Hlm, length_drop. simpl. lia.
  - rewrite take_app_add' by (symmetry; exact Hn).
    rewrite <- app_assoc, take_app_length' by (symmetry; exact Hlm).
    reflexivity.
  - rewrite lookup_app_r by lia. rewrite Hn.
    replace (n + m - n)%nat with m by lia.
    rewrite <- app_assoc. apply list_lookup_middle. symmetry. exact Hlm.
Qed.

(** [str_concat] when the destination has room or growth is granted. *)
Lemma concat_spec (h : allocator) (d sr : String) :
  Inv d -> Inv sr -> data sr <> None ->
  (grants h = true \/ len d + len sr + 1 <= cap d) ->
  len d + len sr + 1 <= SIZE_MAX ->
  exists d',
    str_concat h (Some d) (other (Some sr)) = Done (Some d')
    /\ Inv d'
    /\ content d' = content d ++ content sr.
Proof.
  intros [Hwd Hid] [Hws His] Hds Hg Hmax.
  pose proof Hwd as (Hld & Hcd & Hsd). destruct Hws as (Hls & Hcs & Hss).
  unfold buffer_invariant, content in His |- *.
  destruct (data sr) as [sblk|] eqn:Hsblk; [|congruence].
  destruct His as [Hlcs Hts]. unfold str_concat. rewrite Hsblk.
  rewrite (wrap_small (len d + len sr)) by lia.
  rewrite (wrap_small (len d + len sr + 1)) by lia.
  assert (exists dblk cap1,
             (if len d + len sr + 1 >? cap d
              then reserve h d (len d + len sr + 1) else d)
             = {| data := Some dblk; len := len d; cap := cap1 |}
             /\ size dblk = cap1 /\ len d + len sr + 1 <= cap1 <= SIZE_MAX
             /\ take (Z.to_nat (len d)) dblk = content d) as Hd1.
  { destruct (Z_le_gt_dec (len d + len sr + 1) (cap d)) as [Hroom|Hfull].
    - cmp. unfold buffer_invariant, content in *.
      destruct d as [[old|] l cp]; simpl in *; [|lia].
      exists old, cp. repeat split; try lia; reflexivity.
    - cmp. destruct Hg as [Hg|Hg]; [|lia].
      destruct (reserve_granted h d (len d + len sr + 1) Hg Hwd)
        as (blk' & -> & Hsz & Hold); [lia|].
      eexists. eexists. split; [reflexivity|].
      split; [exact Hsz|]. split; [lia|].
      unfold buffer_invariant, content in *.
      destruct (data d) as [old|].
      + rewrite <- (Hold old eq_refl) at 1. rewrite take_take. f_equal.
        unfold size in Hsd. lia.
      + replace (len d) with 0 by lia. reflexivity. }
  destruct Hd1 as (dblk & cap1 & -> & Hsz1 & Hfit & Hc1). cbn [data len cap].
  rewrite (wrap_small (len sr + 1)) by lia.
  rewrite (wrap_small (len d + len sr)) by lia.
  rewrite memcpy_in by lia. cbn [bind].
  eexists. split; [reflexivity|].
  destruct (copy_terminated dblk sblk (Z.to_nat (len d)) (Z.to_nat (len sr)))
    as (Hlen & Htake & Hterm); [unfold size in *; lia | exact Hts |].
  change (Z.to_nat 0) with 0%nat. rewrite drop_0.
  replace (Z.to_nat (len sr + 1)) with (Z.to_nat (len sr) + 1)%nat by lia.
  replace (Z.to_nat (len d + (len sr + 1)))
    with (Z.to_nat (len d) + Z.to_nat (len sr) + 1)%nat by lia.
  replace (Z.to_nat (len d + len sr))
    with (Z.to_nat (len d) + Z.to_nat (len sr))%nat by lia.
  unfold Inv, well_allocated, buffer_invariant. cbn [data len cap].
  replace (Z.to_nat (len d + len sr))
    with (Z.to_nat (len d) + Z.to_nat (len sr))%nat by lia.
  unfold size in *. rewrite Hlen, Htake.
  split; [repeat split; try lia; exact Hterm|].
  rewrite Hc1. reflexivity.
Qed.

(** ** A new String from two *)

(** What [str_plus] hands to [str_from_cstr] for a side it copies: a block
    with a terminator, whose C string is that of the logical content. *)
Lemma str_data_terminated (p : option String) :
  Inv_ptr p ->
  exists i,
    str_data p !! i = Some NUL
    /\ size (str_data p) <= SIZE_MAX
    /\ until_nul (str_data p) = until_nul (content_of p).
Proof.
  pose proof SIZE_MAX_eq as HM.
  destruct p as [s|]; simpl.
  2:{ intros _. exists 0%nat. repeat split. unfold size. simpl. lia. }
  intros [(Hl & Hc & Hsz) Hi]. unfold buffer_invariant, content in *.
  destruct (data s) as [blk|].
  - destruct Hi as [Hlc Ht]. exists (Z.to_nat (len s)).
    split; [exact Ht|]. split; [lia|]. apply until_nul_take. exact Ht.
  - exists 0%nat. repeat split. unfold size. simpl. lia.
Qed.

(** The buffer [str_from_cstr] builds satisfies the invariant. *)
Lemma from_cstr_Inv (l : list byte) :
  Z.of_nat (length l) + 1 <= SIZE_MAX ->
  Inv {| data := Some (l ++ [NUL]);
         len := Z.of_nat (length l);
         cap := Z.of_nat (length l) + 1 |}
  /\ content {| data := Some (l ++ [NUL]);
                len := Z.of_nat (length l);
                cap := Z.of_nat (length l) + 1 |} = l.
Proof.
  intros Hmax. unfold Inv, well_allocated, buffer_invariant, content, size.
  cbn [data len cap]. rewrite Nat2Z.id, length_app. simpl.
  repeat split; try lia.
  - apply list_lookup_middle. reflexivity.
  - apply take_app_length.
Qed.

Lemma content_length_Inv (s : String) :
  Inv s -> Z.of_nat (length (content s)) = len s.
Proof.
  intros [(Hl & Hc & Hsz) Hi]. unfold buffer_invariant, content in *.
  destruct (data s) as [blk|].
  - rewrite length_take. unfold size in Hsz. lia.
  - simpl. lia.
Qed.

Lemma String_of_Inv (l : list byte) :
  Z.of_nat (length l) + 1 <= SIZE_MAX ->
  Inv (String_of l) /\ content (String_of l) = l.
Proof. exact (from_cstr_Inv l). Qed.

Lemma until_nul_length (l : list byte) :
  (length (until_nul l) <= length l)%nat.
Proof.
  induction l as [|b l IH]; simpl; [lia|].
  destruct (u8 b =? 0); simpl; lia.
Qed.

(** [str_plus] when one side is copied as a C string. *)
Lemma plus_copy (h : allocator) (p : option String) :
  grants h = true -> Inv_ptr p ->
  str_from_cstr h (Some (str_data p)) = Done (String_of (until_nul (content_of p))).
Proof.
  intros Hg Hp.
  destruct (str_data_terminated p Hp) as (i & Hi & Hmax & Hu).
  rewrite (from_cstr_granted h _ i Hg Hi Hmax), Hu. reflexivity.
Qed.

(** [str_plus] on two buffers that have storage. *)
Lemma plus_both (h : allocator) (a b : String) (ablk bblk : block) :
  grants h = true -> Inv a -> Inv b ->
  data a = Some ablk -> data b = Some bblk ->
  len a + len b + 1 <= SIZE_MAX ->
  str_plus h (Some a) (Some b) = Done (String_of (content a ++ content b)).
Proof.
  intros Hg Ha Hb Hda Hdb Hmax.
  pose proof (content_length_Inv a Ha) as Hca.
  pose proof (content_length_Inv b Hb) as Hcb.
  destruct Ha as [(Hla & Hpa & Hsa) Hia]. destruct Hb as [(Hlb & Hpb & Hsb) Hib].
  unfold buffer_invariant in Hia, Hib. rewrite Hda in Hia, Hsa.
  rewrite Hdb in Hib, Hsb. destruct Hia as [Hlca Hta]. destruct Hib as [Hlcb Htb].
  unfold str_plus, storage. rewrite Hda, Hdb.
  rewrite (wrap_small (len a + len b)) by lia.
  rewrite (wrap_small (len a + len b + 1)) by lia.
  rewrite (wrap_small (len b + 1)) by lia.
  destruct (malloc_granted h (len a + len b + 1) Hg) as (blk & -> & Hsz); [lia|].
  rewrite memcpy_in by lia. cbn [bind].
  change (Z.to_nat 0) with 0%nat. rewrite take_0, drop_0, app_nil_l, Z.add_0_l.
  assert (take (Z.to_nat (len a)) ablk = content a) as Hta'.
  { symmetry. apply content_storage. exact Hda. }
  assert (take (Z.to_nat (len b)) bblk = content b) as Htb'.
  { symmetry. apply content_storage. exact Hdb. }
  rewrite Hta'.
  assert (length (content a ++ drop (Z.to_nat (len a)) blk)
          = Z.to_nat (len a + len b + 1)) as Hl1.
  { rewrite length_app, length_drop. unfold size in Hsz. lia. }
  rewrite memcpy_in by (unfold size in *; lia). cbn [bind].
  unfold String_of. f_equal.
  rewrite length_app. f_equal; [|lia|lia]. f_equal.
  rewrite take_app_length' by lia.
  rewrite (drop_ge _ (Z.to_nat (len a + (len b + 1)))) by lia.
  change (Z.to_nat 0) with 0%nat.
  rewrite app_nil_r, drop_0, <- app_assoc. f_equal.
  replace (Z.to_nat (len b + 1)) with (S (Z.to_nat (len b))) by lia.
  rewrite (take_S_r bblk _ NUL Htb), Htb'. reflexivity.
Qed.

(** [str_plus], all cases, when the allocation is granted. *)
Lemma plus_granted (h : allocator) (p q : option String) :
  grants h = true -> Inv_ptr p -> Inv_ptr q ->
  Z.of_nat (length (content_of p)) + Z.of_nat (length (content_of q)) + 1
    <= SIZE_MAX ->
  str_plus h p q = Done (String_of (plus_content p q)).
Proof.
  intros Hg Hp Hq Hmax. unfold plus_content.
  destruct (storage p) as [[a ablk]|] eqn:Hsp.
  - destruct (storage q) as [[b bblk]|] eqn:Hsq.
    + unfold storage in Hsp, Hsq.
      destruct p as [a'|]; [|discriminate]. destruct q as [b'|]; [|discriminate].
      destruct (data a') as [ablk'|] eqn:Hda; [|discriminate].
      destruct (data b') as [bblk'|] eqn:Hdb; [|discriminate].
      simpl in *.
      rewrite (content_length_Inv a' Hp), (content_length_Inv b' Hq) in Hmax.
      exact (plus_both h a' b' ablk' bblk' Hg Hp Hq Hda Hdb Hmax).
    + unfold str_plus. rewrite Hsp, Hsq. apply plus_copy; assumption.
  - unfold str_plus. rewrite Hsp. apply plus_copy; assumption.
Qed.

Lemma storage_None_content (p : option String) :
  storage p = None -> content_of p = [].
Proof.
  destruct p as [s|]; [|reflexivity]. unfold storage. simpl.
  destruct (data s) eqn:Hd; [discriminate|]. intros _.
  apply content_no_storage. exact Hd.
Qed.

(** Where nothing is cut at a zero byte, [str_plus] yields both contents,
    one after the other. *)
Lemma plus_content_app (p q : option String) :
  (storage p <> None /\ storage q <> None)
  \/ ((NUL ∉ content_of p) /\ (NUL ∉ content_of q)) ->
  plus_content p q = content_of p ++ content_of q.
Proof.
  unfold plus_content. intros [[Hp Hq]|[Hp Hq]].
  - destruct (storage p) as [[a ablk]|]; [|congruence].
    destruct (storage q) as [[b bblk]|]; [|congruence]. reflexivity.
  - destruct (storage p) as [[a ablk]|] eqn:Hsp.
    + destruct (storage q) as [[b bblk]|] eqn:Hsq; [reflexivity|].
      rewrite (storage_None_content q Hsq), app_nil_r.
      apply until_nul_no_nul. exact Hp.
    + rewrite (storage_None_content p Hsp), app_nil_l.
      apply until_nul_no_nul. exact Hq.
Qed.

Lemma plus_content_length (p q : option String) :
  (length (plus_content p q)
   <= length (content_of p) + length (content_of q))%nat.
Proof.
  unfold plus_content.
  pose proof (until_nul_length (content_of p)).
  pose proof (until_nul_length (content_of q)).
  destruct (storage p) as [[a ablk]|]; [destruct (storage q) as [[b bblk]|]|];
    rewrite ?length_app; lia.
Qed.

(** C6 as stated fails where neither side has storage: the result is not
    the empty String, since [str_from_cstr] is then called on the empty C
    string and allocates one byte for its terminator. *)
Lemma C6_plus_counterexample :
  str_plus ok_heap (Some str_init) (Some str_init)
  = Done {| data := Some [NUL]; len := 0; cap := 1 |}
  /\ str_plus ok_heap None None
     = Done {| data := Some [NUL]; len := 0; cap := 1 |}
  /\ {| data := Some [NUL]; len := 0; cap := 1 |} <> str_init.
Proof.
  split; [reflexivity|]. split; [reflexivity | discriminate].
Qed.

(** C6, amended.  When the allocation is granted, [str_plus] returns a
    buffer under the invariant.  If both sides have storage, its content is
    the first side's logical bytes followed by the second's.  If one side
    has no storage and the content of the other holds no zero byte, its
    content is the other side's full content.  If neither side has storage,
    it is a one-byte block holding the terminator, with length 0 and
    capacity 1. *)
Theorem C6_plus_content (h : allocator) (p q : option String) :
  grants h = true -> Inv_ptr p -> Inv_ptr q ->
  Z.of_nat (length (content_of p)) + Z.of_nat (length (content_of q)) + 1
    <= SIZE_MAX ->
  exists r,
    str_plus h p q = Done r
    /\ Inv r
    /\ (storage p <> None -> storage q <> None ->
        content r = content_of p ++ content_of q)
    /\ (storage p = None -> (NUL ∉ content_of q) -> content r = content_of q)
    /\ (storage q = None -> (NUL ∉ content_of p) -> content r = content_of p)
    /\ ((NUL ∉ content_of p) -> (NUL ∉ content_of q) ->
        content r = content_of p ++ content_of q)
    /\ (storage p = None -> storage q = None ->
        r = {| data := Some [NUL]; len := 0; cap := 1 |}).
Proof.
  intros Hg Hp Hq Hmax. exists (String_of (plus_content p q)).
  split; [exact (plus_granted h p q Hg Hp Hq Hmax)|].
  pose proof (plus_content_length p q) as Hlen.
  destruct (String_of_Inv (plus_content p q)) as [HI Hc]; [lia|].
  split; [exact HI|]. rewrite Hc.
  split; [intros Hsp Hsq; apply plus_content_app; left; split; assumption|].
  split.
  { intros Hsp Hnq. rewrite plus_content_app.
    - rewrite (storage_None_content p Hsp). reflexivity.
    - right. rewrite (storage_None_content p Hsp).
      split; [apply not_elem_of_nil | exact Hnq]. }
  split.
  { intros Hsq Hnp. rewrite plus_content_app.
    - rewrite (storage_None_content q Hsq), app_nil_r. reflexivity.
    - right. rewrite (storage_None_content q Hsq).
      split; [exact Hnp | apply not_elem_of_nil]. }
  split; [intros Hnp Hnq; apply plus_content_app; right; split; assumption|].
  intros Hsp Hsq. unfold plus_content. rewrite Hsp.
  rewrite (storage_None_content q Hsq). reflexivity.
Qed.

Lemma C6_plus_content_witness :
  grants ok_heap = true /\ Inv_ptr (Some str_ab) /\ Inv_ptr None
  /\ Z.of_nat (length (content_of (Some str_ab)))
     + Z.of_nat (length (content_of None)) + 1 <= SIZE_MAX
  /\ exists r,
       str_plus ok_heap (Some str_ab) None = Done r
       /\ Inv r
       /\ (storage (Some str_ab) <> None -> storage None <> None ->
           content r = content_of (Some str_ab) ++ content_of None)
       /\ (storage (Some str_ab) = None -> (NUL ∉ content_of None) ->
           content r = content_of None)
       /\ (storage None = None -> (NUL ∉ content_of (Some str_ab)) ->
           content r = content_of (Some str_ab))
       /\ ((NUL ∉ content_of (Some str_ab)) -> (NUL ∉ content_of None) ->
           content r = content_of (Some str_ab) ++ content_of None)
       /\ (storage (Some str_ab) = None -> storage None = None ->
           r = {| data := Some [NUL]; len := 0; cap := 1 |}).
Proof.
  assert (Inv_ptr (Some str_ab)) as Ha.
  { repeat split; vm_compute; congruence. }
  assert (Z.of_nat (length (content_of (Some str_ab)))
          + Z.of_nat (length (content_of None)) + 1 <= SIZE_MAX) as Hm.
  { vm_compute. congruence. }
  split; [reflexivity|]. split; [exact Ha|]. split; [exact I|].
  split; [exact Hm|].
  exact (C6_plus_content ok_heap (Some str_ab) None eq_refl Ha I Hm).
Defined.

(** ** Associativity of [str_plus] *)

Lemma String_of_storage (l : list byte) : storage (Some (String_of l)) <> None.
Proof. discriminate. Qed.

(** C5.  [str_plus] is not associative once a zero byte meets a side
    without storage: with [a] empty, [b] holding "x", zero, "y" and [c]
    holding "z", the sum [(a + b) + c] is "xz" while [a + (b + c)] is "x".
    The side that is copied alone goes through [str_from_cstr] and is cut
    at its first zero byte, where the path for two sides with storage
    copies by length: [b + a] is "x", yet [b] plus the empty String that
    [str_from_cstr] makes of the empty C string is "x", zero, "y". *)
Theorem C5_plus_not_associative :
  Inv str_init /\ Inv str_x0y /\ Inv str_z
  /\ (exists ab bc l r,
        str_plus ok_heap (Some str_init) (Some str_x0y) = Done ab
        /\ str_plus ok_heap (Some ab) (Some str_z) = Done l
        /\ str_plus ok_heap (Some str_x0y) (Some str_z) = Done bc
        /\ str_plus ok_heap (Some str_init) (Some bc) = Done r
        /\ content l = [Byte.x78; Byte.x7a]
        /\ content r = [Byte.x78]
        /\ content l <> content r)
  /\ (exists e r1 r2,
        str_from_cstr ok_heap (Some [NUL]) = Done e
        /\ content e = [] /\ content str_init = []
        /\ str_plus ok_heap (Some str_x0y) (Some str_init) = Done r1
        /\ str_plus ok_heap (Some str_x0y) (Some e) = Done r2
        /\ content r1 = [Byte.x78]
        /\ content r2 = [Byte.x78; NUL; Byte.x79]).
Proof.
  split; [repeat split; vm_compute; congruence|].
  split; [repeat split; vm_compute; congruence|].
  split; [repeat split; vm_compute; congruence|].
  split.
  - do 4 eexists. repeat split. vm_compute. congruence.
  - do 3 eexists. repeat split.
Qed.

(** X23. For buffers under the invariant whose lengths add up within
    [size_t], with every allocation granted, and provided either all three
    have storage or no content holds a zero byte, [(a + b) + c] and
    [a + (b + c)] have the same logical content: the bytes of [a], then
    those of [b], then those of [c]. *)
Theorem X23_plus_assoc (h1 h2 h3 h4 : allocator) (a b c : option String) :
  grants h1 = true -> grants h2 = true -> grants h3 = true -> grants h4 = true ->
  Inv_ptr a -> Inv_ptr b -> Inv_ptr c ->
  Z.of_nat (length (content_of a)) + Z.of_nat (length (content_of b))
    + Z.of_nat (length (content_of c)) + 1 <= SIZE_MAX ->
  (storage a <> None /\ storage b <> None /\ storage c <> None)
  \/ ((NUL ∉ content_of a) /\ (NUL ∉ content_of b) /\ (NUL ∉ content_of c)) ->
  exists ab bc l r,
    str_plus h1 a b = Done ab
    /\ str_plus h2 (Some ab) c = Done l
    /\ str_plus h3 b c = Done bc
    /\ str_plus h4 a (Some bc) = Done r
    /\ content l = content r
    /\ content l = content_of a ++ content_of b ++ content_of c.
Proof.
  intros Hg1 Hg2 Hg3 Hg4 Ha Hb Hc Hmax Hside.
  assert (plus_content a b = content_of a ++ content_of b) as Hab.
  { apply plus_content_app. destruct Hside as [(?&?&?)|(?&?&?)]; auto. }
  assert (plus_content b c = content_of b ++ content_of c) as Hbc.
  { apply plus_content_app. destruct Hside as [(?&?&?)|(?&?&?)]; auto. }
  destruct (String_of_Inv (content_of a ++ content_of b)) as [Iab Cab];
    [rewrite length_app; lia|].
  destruct (String_of_Inv (content_of b ++ content_of c)) as [Ibc Cbc];
    [rewrite length_app; lia|].
  exists (String_of (content_of a ++ content_of b)),
         (String_of (content_of b ++ content_of c)),
         (String_of ((content_of a ++ content_of b) ++ content_of c)),
         (String_of (content_of a ++ content_of b ++ content_of c)).
  split. { rewrite <- Hab. apply plus_granted; try assumption. lia. }
  split.
  { assert (plus_content (Some (String_of (content_of a ++ content_of b))) c
            = (content_of a ++ content_of b) ++ content_of c) as Hl.
    { rewrite plus_content_app; [simpl; rewrite Cab; reflexivity|].
      destruct Hside as [(?&?&?)|(?&?&?)].
      - left. split; [apply String_of_storage | assumption].
      - right. split; [|assumption]. simpl. rewrite Cab.
        apply not_elem_of_app. split; assumption. }
    rewrite <- Hl.
    apply plus_granted; try assumption. simpl. rewrite Cab, length_app. lia. }
  split. { rewrite <- Hbc. apply plus_granted; try assumption. lia. }
  split.
  { assert (plus_content a (Some (String_of (content_of b ++ content_of c)))
            = content_of a ++ content_of b ++ content_of c) as Hr.
    { rewrite plus_content_app; [simpl; rewrite Cbc; reflexivity|].
      destruct Hside as [(?&?&?)|(?&?&?)].
      - left. split; [assumption | apply String_of_storage].
      - right. split; [assumption|]. simpl. rewrite Cbc.
        apply not_elem_of_app. split; assumption. }
    rewrite <- Hr.
    apply plus_granted; try assumption. simpl. rewrite Cbc, length_app. lia. }
  destruct (String_of_Inv ((content_of a ++ content_of b) ++ content_of c))
    as [_ Cl]; [rewrite !length_app; lia|].
  destruct (String_of_Inv (content_of a ++ content_of b ++ content_of c))
    as [_ Cr]; [rewrite !length_app; lia|].
  rewrite Cl, Cr, <- app_assoc. split; reflexivity.
Qed.

Lemma X23_plus_assoc_witness :
  grants ok_heap = true /\ grants ok_heap = true
  /\ grants ok_heap = true /\ grants ok_heap = true
  /\ Inv_ptr (Some str_ab) /\ Inv_ptr (Some str_x0y) /\ Inv_ptr (Some str_z)
  /\ Z.of_nat (length (content_of (Some str_ab)))
     + Z.of_nat (length (content_of (Some str_x0y)))
     + Z.of_nat (length (content_of (Some str_z))) + 1 <= SIZE_MAX
  /\ ((storage (Some str_ab) <> None /\ storage (Some str_x0y) <> None
       /\ storage (Some str_z) <> None)
      \/ ((NUL ∉ content_of (Some str_ab)) /\ (NUL ∉ content_of (Some str_x0y))
          /\ (NUL ∉ content_of (Some str_z))))
  /\ exists ab bc l r,
       str_plus ok_heap (Some str_ab) (Some str_x0y) = Done ab
       /\ str_plus ok_heap (Some ab) (Some str_z) = Done l
       /\ str_plus ok_heap (Some str_x0y) (Some str_z) = Done bc
       /\ str_plus ok_heap (Some str_ab) (Some bc) = Done r
       /\ content l = content r
       /\ content l = content_of (Some str_ab) ++ content_of (Some str_x0y)
                      ++ content_of (Some str_z).
Proof.
  assert (Inv_ptr (Some str_ab)) as Ha by (repeat split; vm_compute; congruence).
  assert (Inv_ptr (Some str_x0y)) as Hb by (repeat split; vm_compute; congruence).
  assert (Inv_ptr (Some str_z)) as Hc by (repeat split; vm_compute; congruence).
  assert (Z.of_nat (length (content_of (Some str_ab)))
          + Z.of_nat (length (content_of (Some str_x0y)))
          + Z.of_nat (length (content_of (Some str_z))) + 1 <= SIZE_MAX) as Hm.
  { vm_compute. congruence. }
  assert ((storage (Some str_ab) <> None /\ storage (Some str_x0y) <> None
           /\ storage (Some str_z) <> None)
          \/ ((NUL ∉ content_of (Some str_ab)) /\ (NUL ∉ content_of (Some str_x0y))
              /\ (NUL ∉ content_of (Some str_z)))) as Hs.
  { left. repeat split; discriminate. }
  repeat (split; [first [reflexivity | assumption]|]).
  exact (X23_plus_assoc ok_heap ok_heap ok_heap ok_heap
           (Some str_ab) (Some str_x0y) (Some str_z)
           eq_refl eq_refl eq_refl eq_refl Ha Hb Hc Hm Hs).
Defined.

(** ** The Buffer invariant *)

Lemma Inv_in_bounds (s : String) : Inv s -> in_bounds s.
Proof.
  intros [(Hl & Hc & Hsz) Hi]. split; [exact Hl|].
  unfold buffer_invariant in Hi. destruct (data s); [lia | exact I].
Qed.

Lemma Inv_str_init : Inv str_init.
Proof. repeat split; vm_compute; congruence. Qed.

(** [str_remove_utf8_bom] keeps the invariant. *)
Lemma remove_bom_Inv (s : String) :
  Inv s ->
  exists s' r, str_remove_utf8_bom (Some s) = Done (Some s', r) /\ Inv s'.
Proof.
  intros HI. pose proof (Inv_in_bounds s HI) as Hb.
  destruct (decide (take 3 (content s) = BOM)) as [Hbom|Hno].
  - destruct (remove_bom_present s Hb Hbom)
      as (blk & blk' & Hd & H3 & Hrun & _ & Ht & _ & Hsz).
    eexists. exists true. split; [exact Hrun|].
    destruct HI as [(Hl & Hc & Hs) Hi]. unfold buffer_invariant in Hi.
    rewrite Hd in Hs, Hi.
    repeat split; simpl; try lia. exact Ht.
  - exists s, false. split; [apply remove_bom_absent; assumption | exact HI].
Qed.

(** [str_strip_crlf] keeps the invariant. *)
Lemma strip_crlf_Inv (s : String) :
  Inv s -> exists s', str_strip_crlf (Some s) = Done (Some s') /\ Inv s'.
Proof.
  intros HI. pose proof HI as [(Hl & Hc & Hs) Hi].
  unfold str_strip_crlf, storage. unfold buffer_invariant in Hi.
  destruct (data s) as [blk|] eqn:Hd; [|exists s; split; [reflexivity | exact HI]].
  destruct (len s =? 0); [exists s; split; [reflexivity | exact HI]|].
  destruct Hi as [Hlc Ht].
  destruct (strip_loop_spec (Z.to_nat (len s)) (Z.to_nat (len s)) blk)
    as (blk' & k & Hrun & Hk & Hlen & _ & _ & _ & Hsame & Hterm); try lia.
  rewrite Z2Nat.id in Hrun by lia. rewrite Hrun. cbn [bind fst snd].
  eexists. split; [reflexivity|]. unfold size in *.
  repeat split; simpl; unfold size; rewrite ?Nat2Z.id; try lia.
  destruct (decide (k = Z.to_nat (len s))) as [Hkn|Hkn].
  - rewrite (Hsame Hkn), Hkn. exact Ht.
  - apply Hterm. lia.
Qed.

(** C3.  A refused allocation leaves [str_from_cstr] and [str_plus] with a
    result outside the invariant: the capacity is assigned before [malloc]
    is called and stays when it fails, so the buffer returned has no
    storage, length 0 and the capacity it asked for. *)
Theorem C3_invariant_lost_on_failure :
  str_from_cstr no_heap (Some [Byte.x61; Byte.x62; NUL])
  = Done {| data := None; len := 0; cap := 3 |}
  /\ ~ buffer_invariant {| data := None; len := 0; cap := 3 |}
  /\ Inv str_ab /\ Inv str_z
  /\ str_plus no_heap (Some str_ab) (Some str_z)
     = Done {| data := None; len := 0; cap := 4 |}
  /\ ~ buffer_invariant {| data := None; len := 0; cap := 4 |}
  /\ str_plus no_heap None None = Done {| data := None; len := 0; cap := 1 |}
  /\ ~ buffer_invariant {| data := None; len := 0; cap := 1 |}.
Proof.
  split; [reflexivity|]. split; [intros [_ Hc]; discriminate|].
  split; [repeat split; vm_compute; congruence|].
  split; [repeat split; vm_compute; congruence|].
  split; [reflexivity|]. split; [intros [_ Hc]; discriminate|].
  split; [reflexivity|]. intros [_ Hc]. discriminate.
Qed.

(** [str_reserve] writes no byte: on a buffer without storage it leaves a
    block whose first byte, the one at offset [len], is whatever fresh
    memory holds. *)
Lemma reserve_writes_no_terminator :
  Inv str_init
  /\ str_reserve ok_heap (Some str_init) 4
     = Some {| data := Some [Byte.xaa; Byte.xaa; Byte.xaa; Byte.xaa];
               len := 0; cap := 4 |}
  /\ ~ buffer_invariant
         {| data := Some [Byte.xaa; Byte.xaa; Byte.xaa; Byte.xaa];
            len := 0; cap := 4 |}.
Proof.
  split; [exact Inv_str_init|]. split; [reflexivity|].
  intros [_ Ht]. vm_compute in Ht. discriminate.
Qed.

(** X24. The Buffer invariant, for Strings whose fields describe their
    block.  [str_init] and [str_free] give the empty String, which is under
    it.  [str_from_cstr], on an array with a zero byte that fits [size_t],
    and [str_plus], when the two lengths and the terminator fit [size_t],
    return a buffer under it when their allocation is granted.
    [str_reserve] keeps it on a buffer that has storage.  [str_push_back]
    keeps it when the terminator still fits or growth is granted, the
    doubled capacity fitting [size_t].  [str_concat] from another object
    keeps it when the capacity suffices or growth is granted, the summed
    length and the terminator fitting [size_t].  [str_remove_utf8_bom] and
    [str_strip_crlf] keep it. *)
Theorem X24_invariant_kept (h : allocator) (s t : String) (c : byte) (new_cap : Z) :
  Inv s -> Inv t -> 0 <= new_cap <= SIZE_MAX ->
  Inv str_init
  /\ str_free (Some s) = Some str_init
  /\ (grants h = true -> forall (src : block) (i : nat),
        src !! i = Some NUL -> size src <= SIZE_MAX ->
        exists r, str_from_cstr h (Some src) = Done r /\ Inv r)
  /\ (grants h = true -> len s + len t + 1 <= SIZE_MAX ->
      exists r, str_plus h (Some s) (Some t) = Done r /\ Inv r)
  /\ (data s <> None -> Inv_ptr (str_reserve h (Some s) new_cap))
  /\ (grants h = true \/ len s + 1 < cap s -> 2 * cap s <= SIZE_MAX ->
      exists s', str_push_back h (Some s) c = Done (Some s') /\ Inv s')
  /\ (grants h = true \/ len s + len t + 1 <= cap s ->
      len s + len t + 1 <= SIZE_MAX ->
      exists s', str_concat h (Some s) (other (Some t)) = Done (Some s') /\ Inv s')
  /\ (exists s' r, str_remove_utf8_bom (Some s) = Done (Some s', r) /\ Inv s')
  /\ (exists s', str_strip_crlf (Some s) = Done (Some s') /\ Inv s').
Proof.
  intros Hs Ht Hn.
  split; [exact Inv_str_init|]. split; [reflexivity|].
  split.
  { intros Hg src i Hi Hmax. eexists.
    split; [exact (from_cstr_granted h src i Hg Hi Hmax)|].
    pose proof (until_nul_length_le src i Hi).
    pose proof (lookup_lt_Some _ _ _ Hi).
    apply from_cstr_Inv. unfold size in Hmax. lia. }
  split.
  { intros Hg Hmax. eexists. split.
    - apply (plus_granted h (Some s) (Some t) Hg Hs Ht). simpl.
      rewrite (content_length_Inv s Hs), (content_length_Inv t Ht). exact Hmax.
    - apply String_of_Inv.
      pose proof (plus_content_length (Some s) (Some t)) as Hl. simpl in Hl.
      pose proof (content_length_Inv s Hs). pose proof (content_length_Inv t Ht).
      lia. }
  split; [intros Hd; simpl; apply reserve_Inv; assumption|].
  split.
  { intros Hg Hmax.
    destruct (push_back_spec h s c Hs Hg Hmax) as (s' & Hrun & HI & _).
    exists s'. split; [|exact HI]. unfold str_push_back. rewrite Hrun. reflexivity. }
  split.
  { intros Hg Hmax. destruct (data t) as [tblk|] eqn:Hdt.
    - destruct (concat_spec h s t Hs Ht) as (s' & Hrun & HI & _);
        [congruence | exact Hg | exact Hmax |].
      exists s'. split; assumption.
    - exists s. split; [|exact Hs]. unfold str_concat. rewrite Hdt. reflexivity. }
  split; [exact (remove_bom_Inv s Hs) | exact (strip_crlf_Inv s Hs)].
Qed.

Lemma X24_invariant_kept_witness :
  Inv str_ab /\ Inv str_z /\ 0 <= 8 <= SIZE_MAX
  /\ Inv str_init
  /\ str_free (Some str_ab) = Some str_init
  /\ (grants ok_heap = true -> forall (src : block) (i : nat),
        src !! i = Some NUL -> size src <= SIZE_MAX ->
        exists r, str_from_cstr ok_heap (Some src) = Done r /\ Inv r)
  /\ (grants ok_heap = true -> len str_ab + len str_z + 1 <= SIZE_MAX ->
      exists r, str_plus ok_heap (Some str_ab) (Some str_z) = Done r /\ Inv r)
  /\ (data str_ab <> None -> Inv_ptr (str_reserve ok_heap (Some str_ab) 8))
  /\ (grants ok_heap = true \/ len str_ab + 1 < cap str_ab ->
      2 * cap str_ab <= SIZE_MAX ->
      exists s', str_push_back ok_heap (Some str_ab) Byte.x63 = Done (Some s')
                 /\ Inv s')
  /\ (grants ok_heap = true \/ len str_ab + len str_z + 1 <= cap str_ab ->
      len str_ab + len str_z + 1 <= SIZE_MAX ->
      exists s', str_concat ok_heap (Some str_ab) (other (Some str_z)) = Done (Some s')
                 /\ Inv s')
  /\ (exists s' r, str_remove_utf8_bom (Some str_ab) = Done (Some s', r) /\ Inv s')
  /\ (exists s', str_strip_crlf (Some str_ab) = Done (Some s') /\ Inv s').
Proof.
  assert (Inv str_ab) as Ha by (repeat split; vm_compute; congruence).
  assert (Inv str_z) as Hz by (repeat split; vm_compute; congruence).
  assert (0 <= 8 <= SIZE_MAX) as Hn by (split; vm_compute; congruence).
  split; [exact Ha|]. split; [exact Hz|]. split; [exact Hn|].
  exact (X24_invariant_kept ok_heap str_ab str_z Byte.x63 8 Ha Hz Hn).
Defined.

(** ** UTF-8 validation *)

(** The code's bit operations, read as arithmetic. *)
Lemma lead_byte_spec (b : byte) :
  lead_byte (u8 b)
  = match continuation_count (u8 b) with
    | Some n => Some (lead_payload n (u8 b), Z.of_nat n)
    | None => None
    end.
Proof. destruct b; reflexivity. Qed.

Lemma continuation_test (b : byte) :
  (Z.land (u8 b) 0xC0 =? 0x80) = is_continuation b.
Proof. destruct b; reflexivity. Qed.

Lemma continuation_count_le (b : Z) (n : nat) :
  continuation_count b = Some n -> (n <= 3)%nat.
Proof.
  unfold continuation_count.
  repeat match goal with |- context [if ?c then _ else _] => destruct c end;
    intros [= <-]; lia.
Qed.

Lemma lead_payload_bound (b : byte) (n : nat) :
  continuation_count (u8 b) = Some n ->
  0 <= lead_payload n (u8 b)
  /\ lead_payload n (u8 b) < match n with
                             | 0%nat => 128
                             | 1%nat => 32
                             | 2%nat => 16
                             | _ => 8
                             end.
Proof. destruct b; vm_compute; intros [= <-]; split; congruence. Qed.

Lemma shift_or (cp : Z) (b : byte) :
  0 <= cp < 2 ^ 26 ->
  wrap32 (Z.lor (wrap32 (Z.shiftl cp 6)) (Z.land (u8 b) 0x3F)) = accumulate cp b.
Proof.
  intros Hcp. unfold accumulate, wrap32.
  rewrite Z.shiftl_mul_pow2 by lia.
  change (2 ^ 6) with 64. change 0x3F with (Z.ones 6).
  rewrite Z.land_ones by lia. change (2 ^ 6) with 64.
  pose proof (Z.mod_pos_bound (u8 b) 64 ltac:(lia)) as Hr.
  rewrite (Z.mod_small (cp * 64)) by lia.
  rewrite <- Z.add_nocarry_lor.
  - apply Z.mod_small. lia.
  - apply Z.bits_inj'. intros k Hk. rewrite Z.land_spec, Z.bits_0.
    destruct (Z_lt_ge_dec k 6) as [Hlt|Hge].
    + change 64 with (2 ^ 6). rewrite Z.mul_pow2_bits_low by lia. reflexivity.
    + replace (u8 b mod 64) with (u8 b mod 2 ^ 6) by reflexivity.
      rewrite Z.mod_pow2_bits_high by lia. apply andb_false_r.
Qed.

(** The [for] loop over the continuation bytes computes what the
    specification says of the bytes it reads: [None] if one of them is no
    continuation byte, else the codepoint accumulated from [cp]. *)
Lemma continuation_bytes_spec (data : block) (i : Z) :
  forall (n : nat) (j cp : Z) (conts : list byte),
    0 <= i -> 0 <= j -> i + 1 + j + Z.of_nat n <= SIZE_MAX ->
    take n (drop (Z.to_nat (i + 1 + j)) data) = conts -> length conts = n ->
    (n <= 4)%nat -> 0 <= cp < 2 ^ (32 - 6 * Z.of_nat n) ->
    continuation_bytes n data i j cp
    = Done (if forallb is_continuation conts
            then Some (fold_left accumulate conts cp)
            else None).
Proof.
  induction n as [|n IH]; intros j cp conts Hi Hj Hmax Hc Hl Hn Hcp.
  - destruct conts; [reflexivity | discriminate].
  - destruct conts as [|c conts]; [discriminate|]. simpl in Hl.
    cbn [continuation_bytes forallb fold_left].
    rewrite (wrap_small (i + 1)) by lia.
    rewrite (wrap_small (i + 1 + j)) by lia.
    rewrite (wrap_small (j + 1)) by lia.
    assert (data !! Z.to_nat (i + 1 + j) = Some c) as Hload.
    { apply (f_equal (fun l => l !! 0%nat)) in Hc. simpl in Hc.
      rewrite lookup_take_lt, lookup_drop, Nat.add_0_r in Hc by lia. exact Hc. }
    rewrite (load_lookup data (i + 1 + j) c) by (try lia; exact Hload).
    cbn [bind]. rewrite continuation_test.
    destruct (is_continuation c); [|reflexivity]. cbn [negb andb].
    assert (2 ^ (32 - 6 * Z.of_nat n) = 2 ^ (32 - 6 * Z.of_nat (S n)) * 64) as Hpow.
    { change 64 with (2 ^ 6). rewrite <- Z.pow_add_r by lia. f_equal. lia. }
    assert (2 ^ (32 - 6 * Z.of_nat (S n)) <= 2 ^ 26) as Hle.
    { apply Z.pow_le_mono_r; lia. }
    rewrite shift_or by lia.
    apply IH; try lia.
    + rewrite (drop_S data c _ Hload) in Hc. simpl in Hc.
      injection Hc as Hc. rewrite <- Hc. f_equal. f_equal. lia.
    + unfold accumulate.
      pose proof (Z.mod_pos_bound (u8 c) 64 ltac:(lia)). lia.
Qed.

(** How large a decoded codepoint can be, by the length of its encoding. *)
Lemma decode_bound (b0 : byte) (conts : list byte) :
  continuation_count (u8 b0) = Some (length conts) ->
  0 <= decode b0 conts
  /\ decode b0 conts < match length conts with
                       | 0%nat => 0x80
                       | 1%nat => 0x800
                       | 2%nat => 0x10000
                       | _ => 0x200000
                       end.
Proof.
  intros Hc. pose proof (lead_payload_bound b0 _ Hc) as Hp.
  pose proof (continuation_count_le _ _ Hc) as Hn.
  unfold decode.
  destruct conts as [|c1 [|c2 [|c3 [|c4 conts]]]]; simpl in *; try lia;
    unfold accumulate;
    try pose proof (Z.mod_pos_bound (u8 c1) 64 ltac:(lia));
    try pose proof (Z.mod_pos_bound (u8 c2) 64 ltac:(lia));
    try pose proof (Z.mod_pos_bound (u8 c3) 64 ltac:(lia));
    lia.
Qed.

(** The [switch] of the code against the three conditions of the
    specification, for a codepoint in the range its encoding allows. *)
Lemma codepoint_ok_spec (b0 : byte) (conts : list byte) :
  continuation_count (u8 b0) = Some (length conts) ->
  codepoint_ok (Z.of_nat (length conts)) (decode b0 conts) = true
  <-> min_codepoint (length conts) <= decode b0 conts
      /\ ~ (0xD800 <= decode b0 conts <= 0xDFFF)
      /\ decode b0 conts <= 0x10FFFF.
Proof.
  intros Hc. pose proof (decode_bound b0 conts Hc) as [H0 Hmax].
  pose proof (continuation_count_le _ _ Hc) as Hn.
  unfold codepoint_ok.
  destruct (length conts) as [|[|[|[|n]]]]; simpl in *; try lia;
    rewrite ?andb_true_iff, ?negb_true_iff, ?andb_false_iff,
            ?Z.ltb_ge, ?Z.gtb_ltb, ?Z.geb_leb, ?Z.ltb_ge, ?Z.leb_gt, ?Z.ltb_ge;
    lia.
Qed.

Lemma forallb_Forall {A : Type} (f : A -> bool) (l : list A) :
  forallb f l = true <-> Forall (fun x => f x = true) l.
Proof.
  induction l as [|x l IH]; simpl.
  - split; [constructor | reflexivity].
  - rewrite andb_true_iff, Forall_cons, IH. reflexivity.
Qed.

(** A non-empty string is well formed exactly when it starts with one
    encoding, whose length its first byte fixes, and goes on well formed. *)
Lemma well_formed_cons (b0 : byte) (tl : list byte) :
  well_formed_utf8 (b0 :: tl)
  <-> exists n,
        continuation_count (u8 b0) = Some n
        /\ (n <= length tl)%nat
        /\ forallb is_continuation (take n tl) = true
        /\ codepoint_ok (Z.of_nat n) (decode b0 (take n tl)) = true
        /\ well_formed_utf8 (drop n tl).
Proof.
  split.
  - intros Hwf. remember (b0 :: tl) as l eqn:El.
    destruct Hwf as [|enc rest Henc Hrest]; [discriminate|].
    destruct Henc as [b conts Hc Hall Hmin Hsur Hmax].
    simpl in El. injection El as -> <-.
    exists (length conts).
    rewrite take_app_length, drop_app_length, length_app.
    split; [exact Hc|]. split; [lia|].
    split; [apply forallb_Forall; exact Hall|].
    split; [|exact Hrest].
    apply codepoint_ok_spec; [exact Hc | auto].
  - intros (n & Hc & Hn & Hall & Hok & Hrest).
    rewrite <- (take_drop n tl).
    change (b0 :: take n tl ++ drop n tl) with ((b0 :: take n tl) ++ drop n tl).
    remember (take n tl) as conts eqn:Ec.
    assert (length conts = n) as Hl by (subst conts; rewrite length_take; lia).
    rewrite <- Hl in Hc, Hok.
    apply codepoint_ok_spec in Hok as (Hmin & Hsur & Hmax); [|exact Hc].
    apply wf_encoding; [|exact Hrest].
    apply encoding_intro; try assumption.
    apply forallb_Forall. exact Hall.
Qed.

Section Validator.

(** The span under validation: [length] bytes inside the block [data],
    short enough for [i + extraBytes] to stay within [size_t]. *)
Variables (data : block) (length : Z).
Hypothesis length_in_block : 0 <= length <= size data.
Hypothesis length_fits : length + 2 <= SIZE_MAX.

(** The loop of [utf8_validate], from offset [i] on, decides whether the
    rest of the first [length] bytes is well formed; it never faults and
    never runs out of fuel. *)
Lemma validate_loop_spec (fuel i : nat) :
  (i <= Z.to_nat length)%nat -> (Z.to_nat length - i <= fuel)%nat ->
  exists b,
    validate_loop fuel data length (Z.of_nat i) = Done b
    /\ (b = true <-> well_formed_utf8 (drop i (take (Z.to_nat length) data))).
Proof.
  pose proof length_in_block as Hlen. pose proof length_fits as Hmax.
  revert fuel i. set (L := Z.to_nat length). set (l := take L data).
  assert (List.length l = L) as HlL.
  { unfold l. rewrite length_take. unfold size in Hlen. lia. }
  induction fuel as [|fuel IH]; intros i Hi Hf.
  - assert (i = L) as -> by lia. exists true. simpl. cmp.
    rewrite drop_ge by lia. split; [reflexivity|]. split; [constructor | reflexivity].
  - destruct (decide (i = L)) as [->|Hne].
    { exists true. cbn [validate_loop]. cmp.
      rewrite drop_ge by lia. split; [reflexivity|].
      split; [constructor | reflexivity]. }
    assert (i < L)%nat as HiL by lia.
    destruct (lookup_lt_is_Some_2 l i) as [b0 Hb0]; [lia|].
    assert (data !! i = Some b0) as Hd0.
    { unfold l in Hb0. rewrite lookup_take_lt in Hb0 by lia. exact Hb0. }
    pose proof (well_formed_cons b0 (drop (S i) l)) as Hwfi.
    rewrite <- (drop_S l b0 i Hb0) in Hwfi.
    cbn [validate_loop]. cmp.
    rewrite (load_lookup data (Z.of_nat i) b0) by (try lia; rewrite Nat2Z.id; exact Hd0).
    cbn [bind]. rewrite lead_byte_spec.
    destruct (continuation_count (u8 b0)) as [n|] eqn:Hc.
    2:{ exists false. split; [reflexivity|]. rewrite Hwfi. split; [discriminate|].
        intros (n & Hn & _). discriminate. }
    pose proof (continuation_count_le _ _ Hc) as Hn3.
    rewrite (wrap_small (Z.of_nat i + Z.of_nat n)) by lia.
    assert (List.length (drop (S i) l) = (L - S i)%nat) as Htl.
    { rewrite length_drop. lia. }
    destruct (Z_lt_ge_dec (Z.of_nat i + Z.of_nat n) length) as [Hroom|Hshort].
    2:{ exists false. cmp. split; [reflexivity|]. rewrite Hwfi. split; [discriminate|].
        intros (n' & Hn' & Hle & _). exfalso.
        rewrite Htl in Hle. assert (n' = n) by congruence. lia. }
    cmp. rewrite Nat2Z.id.
    assert (take n (drop (Z.to_nat (Z.of_nat i + 1 + 0)) data)
            = take n (drop (S i) l)) as Hconts.
    { replace (Z.to_nat (Z.of_nat i + 1 + 0)) with (S i) by lia.
      unfold l. rewrite skipn_firstn_comm, take_take. f_equal. lia. }
    assert (List.length (take n (drop (S i) l)) = n) as Hcl.
    { rewrite length_take. lia. }
    pose proof (lead_payload_bound b0 n Hc) as [Hp0 Hp1].
    rewrite (continuation_bytes_spec data (Z.of_nat i) n 0 _ _
               ltac:(lia) ltac:(lia) ltac:(lia) Hconts Hcl ltac:(lia)).
    2:{ split; [exact Hp0|].
        destruct n as [|[|[|[|n]]]]; try lia;
          eapply Z.lt_le_trans; try exact Hp1; vm_compute; congruence. }
    cbn [bind].
    destruct (forallb is_continuation (take n (drop (S i) l))) eqn:Hall.
    2:{ exists false. split; [reflexivity|]. rewrite Hwfi. split; [discriminate|].
        intros (n' & Hn' & _ & Hall' & _). exfalso.
        assert (n' = n) by congruence. subst n'. congruence. }
    assert (fold_left accumulate (take n (drop (S i) l)) (lead_payload n (u8 b0))
            = decode b0 (take n (drop (S i) l))) as Hdec.
    { unfold decode. rewrite Hcl. reflexivity. }
    rewrite Hdec.
    destruct (codepoint_ok (Z.of_nat n) (decode b0 (take n (drop (S i) l)))) eqn:Hok.
    2:{ exists false. split; [reflexivity|]. rewrite Hwfi. split; [discriminate|].
        intros (n' & Hn' & _ & _ & Hok' & _). exfalso.
        assert (n' = n) by congruence. subst n'. congruence. }
    rewrite (wrap_small (Z.of_nat n + 1)) by lia.
    rewrite (wrap_small (Z.of_nat i + (Z.of_nat n + 1))) by lia.
    replace (Z.of_nat i + (Z.of_nat n + 1)) with (Z.of_nat (i + n + 1)) by lia.
    destruct (IH (i + n + 1)%nat) as (b & Hrun & Hb); [lia | lia |].
    exists b. split; [exact Hrun|]. rewrite Hb, Hwfi. fold L. fold l.
    assert (drop n (drop (S i) l) = drop (i + n + 1) l) as Hdrop.
    { rewrite drop_drop. f_equal. lia. }
    split.
    + intros Hwf. exists n. rewrite Hdrop. repeat split; try assumption. lia.
    + intros (n' & Hn' & _ & _ & _ & Hwf).
      assert (n' = n) by congruence. subst n'. rewrite Hdrop in Hwf. exact Hwf.
Qed.

End Validator.

(** C1. On the first [length] bytes of a block, [utf8_validate] returns,
    and returns true exactly when those bytes are well-formed UTF-8 in
    the sense of RFC 3629: a sequence of encodings, each a lead byte in
    00-7F, C2-DF, E0-EF or F0-F4 followed by 0, 1, 2 or 3 continuation
    bytes with top bits 10, decoding to a codepoint that is not overlong
    (at least 0x80, 0x800, 0x10000 for 2, 3, 4 bytes), no surrogate and at
    most 0x10FFFF.  The empty input is valid. *)
Theorem C1_utf8_validate (bytes : block) (length : Z) :
  0 <= length <= size bytes -> length + 2 <= SIZE_MAX ->
  (exists b,
     utf8_validate (Some bytes) length = Done b
     /\ (b = true <-> well_formed_utf8 (take (Z.to_nat length) bytes)))
  /\ (length = 0 -> utf8_validate (Some bytes) length = Done true).
Proof.
  intros Hlen Hmax.
  destruct (validate_loop_spec bytes length Hlen Hmax (Z.to_nat length) 0%nat)
    as (b & Hrun & Hb); [lia | lia |].
  rewrite drop_0 in Hb. split.
  - exists b. split; [exact Hrun | exact Hb].
  - intros ->. reflexivity.
Qed.

Lemma C1_utf8_validate_witness :
  0 <= 4 <= size grinning_face /\ 4 + 2 <= SIZE_MAX
  /\ (exists b,
        utf8_validate (Some grinning_face) 4 = Done b
        /\ (b = true <-> well_formed_utf8 (take (Z.to_nat 4) grinning_face)))
  /\ (4 = 0 -> utf8_validate (Some grinning_face) 4 = Done true).
Proof.
  assert (0 <= 4 <= size grinning_face) as Hl by (split; vm_compute; congruence).
  assert (4 + 2 <= SIZE_MAX) as Hm by (vm_compute; congruence).
  split; [exact Hl|]. split; [exact Hm|].
  exact (C1_utf8_validate grinning_face 4 Hl Hm).
Defined.

(** The same through a buffer: [str_validate_utf8] decides whether the
    logical content is well formed. *)
Lemma str_validate_utf8_spec (s : String) :
  in_bounds s -> len s + 2 <= SIZE_MAX ->
  exists b,
    str_validate_utf8 (Some s) = Done b
    /\ (b = true <-> well_formed_utf8 (content s)).
Proof.
  intros [Hr Hb] Hmax. unfold str_validate_utf8, content.
  destruct (data s) as [blk|].
  - destruct (validate_loop_spec blk (len s) ltac:(lia) Hmax (Z.to_nat (len s)) 0%nat)
      as (b & Hrun & Hwf); [lia | lia |].
    rewrite drop_0 in Hwf. exists b. split; [exact Hrun | exact Hwf].
  - exists true. split; [reflexivity|]. split; [constructor | reflexivity].
Qed.

(** The fixed vectors of the specification. *)
Example validate_vectors :
  utf8_validate (Some (bytes_of [104; 101; 108; 108; 111])) 5 = Done true
  /\ utf8_validate (Some (bytes_of [0xC2; 0x80])) 2 = Done true
  /\ utf8_validate (Some (bytes_of [0xC0; 0x80])) 2 = Done false
  /\ utf8_validate (Some (bytes_of [0xE0; 0x80; 0x80])) 3 = Done false
  /\ utf8_validate (Some (bytes_of [0xED; 0xA0; 0x80])) 3 = Done false
  /\ utf8_validate (Some (bytes_of [0xF4; 0x90; 0x80; 0x80])) 4 = Done false
  /\ utf8_validate (Some (bytes_of [0xF0; 0x9F; 0x98; 0x80])) 4 = Done true
  /\ utf8_validate (Some (bytes_of [0xE2; 0x82])) 2 = Done false.
Proof. repeat split. Qed.

(** ** The two readings of RFC 3629 agree *)

Lemma is_continuation_tail (c : byte) :
  is_continuation c = true <-> UTF8_tail c.
Proof.
  unfold is_continuation, UTF8_tail, between. rewrite Z.eqb_eq.
  pose proof (u8_range c) as Hr. split; intros H; Z.div_mod_to_equations; lia.
Qed.

Lemma continuation_count_inv (b : Z) (n : nat) :
  continuation_count b = Some n ->
  (n = 0%nat /\ 0x00 <= b <= 0x7F) \/ (n = 1%nat /\ 0xC2 <= b <= 0xDF)
  \/ (n = 2%nat /\ 0xE0 <= b <= 0xEF) \/ (n = 3%nat /\ 0xF0 <= b <= 0xF4).
Proof.
  unfold continuation_count.
  repeat match goal with
         | |- context [if ?c then _ else _] => destruct c eqn:?
         end; intros [= <-]; lia.
Qed.

Lemma continuation_count_intro (b : Z) (n : nat) :
  (n = 0%nat /\ 0x00 <= b <= 0x7F) \/ (n = 1%nat /\ 0xC2 <= b <= 0xDF)
  \/ (n = 2%nat /\ 0xE0 <= b <= 0xEF) \/ (n = 3%nat /\ 0xF0 <= b <= 0xF4) ->
  continuation_count b = Some n.
Proof.
  unfold continuation_count.
  intros [[-> H]|[[-> H]|[[-> H]|[-> H]]]]; cmp; reflexivity.
Qed.

(** Unfold a decoded codepoint into linear arithmetic. *)
Ltac decode_arith :=
  unfold decode, accumulate, lead_payload, min_codepoint, UTF8_tail in *;
  unfold between in *;
  cbn [length fold_left] in *;
  Z.div_mod_to_equations; lia.

(** An encoding in the sense of the specification is a [UTF8-char] of the
    grammar. *)
Lemma encoding_UTF8_char (enc : list byte) : encoding enc -> UTF8_char enc.
Proof.
  intros [b0 conts Hc Hall Hmin Hsur Hmax].
  apply continuation_count_inv in Hc.
  destruct conts as [|c1 [|c2 [|c3 [|c4 conts]]]]; cbn [length] in Hc;
    try (exfalso; lia);
    repeat match goal with
           | H : Forall _ (_ :: _) |- _ =>
               apply Forall_cons in H as [?%is_continuation_tail H]
           end.
  - apply UTF8_1. decode_arith.
  - apply UTF8_2; [decode_arith | assumption].
  - destruct (Z.eq_dec (u8 b0) 0xE0);
      [apply UTF8_3_E0; try assumption; decode_arith|].
    destruct (Z.eq_dec (u8 b0) 0xED);
      [apply UTF8_3_ED; try assumption; decode_arith|].
    destruct (Z_le_gt_dec (u8 b0) 0xEC);
      [apply UTF8_3_E1_EC | apply UTF8_3_EE_EF]; try assumption; decode_arith.
  - destruct (Z.eq_dec (u8 b0) 0xF0);
      [apply UTF8_4_F0; try assumption; decode_arith|].
    destruct (Z.eq_dec (u8 b0) 0xF4);
      [apply UTF8_4_F4; try assumption; decode_arith|].
    apply UTF8_4_F1_F3; try assumption; decode_arith.
Qed.

(** And conversely. *)
Lemma UTF8_char_encoding (enc : list byte) : UTF8_char enc -> encoding enc.
Proof.
  assert (forall lo hi c, between lo hi c -> 0x80 <= lo -> hi <= 0xBF -> UTF8_tail c)
    as Htail by (unfold UTF8_tail, between; intros; lia).
  intros H; destruct H;
    (apply encoding_intro;
     [ apply continuation_count_intro; unfold between in *; cbn [length]; lia
     | repeat (apply Forall_cons; split;
               [apply is_continuation_tail; first [assumption | eapply Htail; [eassumption | lia | lia]]|]);
       constructor
     | decode_arith | decode_arith | decode_arith ]).
Qed.

Lemma well_formed_UTF8_octets (l : list byte) :
  well_formed_utf8 l <-> UTF8_octets l.
Proof.
  split; intros H; induction H; constructor;
    auto using encoding_UTF8_char, UTF8_char_encoding.
Qed.

(** C1 once more, against the grammar: [utf8_validate] accepts exactly the
    [UTF8-octets] of RFC 3629. *)
Corollary utf8_validate_RFC3629 (bytes : block) (length : Z) :
  0 <= length <= size bytes -> length + 2 <= SIZE_MAX ->
  exists b,
    utf8_validate (Some bytes) length = Done b
    /\ (b = true <-> UTF8_octets (take (Z.to_nat length) bytes)).
Proof.
  intros Hlen Hmax.
  destruct (validate_loop_spec bytes length Hlen Hmax (Z.to_nat length) 0%nat)
    as (b & Hrun & Hb); [lia | lia |].
  rewrite drop_0, well_formed_UTF8_octets in Hb.
  exists b. split; [exact Hrun | exact Hb].
Qed.

(** * Further properties *)

(** ** The validator on whole blocks *)

(** [utf8_validate] on all of a block. *)
Lemma validate_whole (bytes : block) :
  size bytes + 2 <= SIZE_MAX ->
  exists b,
    utf8_validate (Some bytes) (size bytes) = Done b
    /\ (b = true <-> well_formed_utf8 bytes).
Proof.
  intros Hmax.
  destruct (validate_loop_spec bytes (size bytes)
              ltac:(unfold size; lia) Hmax (Z.to_nat (size bytes)) 0%nat)
    as (b & Hrun & Hb); [lia | lia |].
  rewrite drop_0, take_ge in Hb by (unfold size; lia).
  exists b. split; assumption.
Qed.

Lemma verdict_eq (b1 b2 : bool) (P Q : Prop) :
  (b1 = true <-> P) -> (b2 = true <-> Q) -> (P <-> Q) -> b1 = b2.
Proof. destruct b1, b2; intuition congruence. Qed.

Lemma well_formed_app (a b : list byte) :
  well_formed_utf8 a -> well_formed_utf8 b -> well_formed_utf8 (a ++ b).
Proof.
  intros Ha Hb. induction Ha as [|enc rest Henc Hrest IH]; [exact Hb|].
  rewrite <- app_assoc. apply wf_encoding; assumption.
Qed.

(** Parsing is deterministic: behind a well-formed prefix, the rest is
    well formed if the whole is. *)
Lemma well_formed_app_inv (a b : list byte) :
  well_formed_utf8 a -> well_formed_utf8 (a ++ b) -> well_formed_utf8 b.
Proof.
  intros Ha. induction Ha as [|enc rest Henc Hrest IH]; [auto|].
  intros Hab. apply IH. rewrite <- app_assoc in Hab.
  destruct Henc as [b0 conts Hc _ _ _ _]. simpl in Hab.
  apply well_formed_cons in Hab as (n & Hn & _ & _ & _ & Hwf).
  assert (n = length conts) as -> by congruence.
  rewrite drop_app_length in Hwf. exact Hwf.
Qed.

Lemma encoding_ascii (b : byte) : u8 b <= 0x7F -> encoding [b].
Proof.
  intros Hb. pose proof (u8_range b) as Hr.
  apply encoding_intro.
  - apply continuation_count_intro. left. cbn [length]. lia.
  - constructor.
  - decode_arith.
  - decode_arith.
  - decode_arith.
Qed.

Lemma well_formed_ascii (l : list byte) :
  Forall (fun b => u8 b <= 0x7F) l -> well_formed_utf8 l.
Proof.
  induction 1 as [|b l Hb _ IH]; [constructor|].
  change (b :: l) with ([b] ++ l).
  apply wf_encoding; [apply encoding_ascii; exact Hb | exact IH].
Qed.

(** The last byte of an encoding of several bytes is a continuation
    byte, so an encoding ending in an ASCII byte is that byte alone. *)
Lemma encoding_snoc_ascii (l : list byte) (b : byte) :
  u8 b <= 0x7F -> encoding (l ++ [b]) -> l = [].
Proof.
  intros Hb Henc. remember (l ++ [b]) as enc eqn:E.
  destruct Henc as [b0 conts _ Hall _ _ _].
  destruct l as [|x l]; [reflexivity|]. exfalso.
  simpl in E. injection E as -> ->.
  apply Forall_app in Hall as [_ Hall].
  apply Forall_singleton, is_continuation_tail in Hall.
  unfold UTF8_tail, between in Hall. lia.
Qed.

Lemma well_formed_snoc_ascii (l : list byte) (b : byte) :
  u8 b <= 0x7F -> well_formed_utf8 (l ++ [b]) -> well_formed_utf8 l.
Proof.
  intros Hb Hwf. remember (l ++ [b]) as w eqn:E. revert l E.
  induction Hwf as [|enc rest Henc Hrest IH]; intros l E.
  - destruct l; discriminate.
  - destruct rest as [|r rest' _] using rev_ind.
    + rewrite app_nil_r in E. subst enc.
      rewrite (encoding_snoc_ascii l b Hb Henc). constructor.
    + rewrite app_assoc in E. apply app_inj_tail in E as [<- ->].
      apply wf_encoding; [exact Henc|]. apply IH. reflexivity.
Qed.

Lemma well_formed_app_ascii (l t : list byte) :
  Forall (fun b => u8 b <= 0x7F) t ->
  well_formed_utf8 (l ++ t) <-> well_formed_utf8 l.
Proof.
  intros Ht. split.
  - revert Ht. induction t as [|b t IH] using rev_ind; intros Ht.
    + rewrite app_nil_r. auto.
    + apply Forall_app in Ht as [Ht Hb]. rewrite Forall_singleton in Hb.
      rewrite app_assoc. intros Hwf. apply IH; [exact Ht|].
      eapply well_formed_snoc_ascii; eassumption.
  - intros Hl. apply well_formed_app; [exact Hl | apply well_formed_ascii; exact Ht].
Qed.

(** The bytes C0, C1 and F5 to FF occur in no well-formed string. *)
Lemma well_formed_bytes (l : list byte) :
  well_formed_utf8 l ->
  Forall (fun b => u8 b <> 0xC0 /\ u8 b <> 0xC1 /\ u8 b < 0xF5) l.
Proof.
  induction 1 as [|enc rest Henc _ IH]; [constructor|].
  apply Forall_app. split; [|exact IH].
  destruct Henc as [b0 conts Hc Hall _ _ _].
  apply continuation_count_inv in Hc. constructor; [lia|].
  eapply Forall_impl; [exact Hall|]. intros c Hcont.
  apply is_continuation_tail in Hcont. unfold UTF8_tail, between in Hcont. lia.
Qed.

(** X10. A span of ASCII bytes, zero bytes included, is always accepted. *)
Theorem X10_validate_ascii (bytes : block) (length : Z) :
  0 <= length <= size bytes -> length + 2 <= SIZE_MAX ->
  Forall (fun b => u8 b <= 0x7F) (take (Z.to_nat length) bytes) ->
  utf8_validate (Some bytes) length = Done true.
Proof.
  intros Hlen Hmax Hascii.
  destruct (validate_loop_spec bytes length Hlen Hmax (Z.to_nat length) 0%nat)
    as (b & Hrun & Hb); [lia | lia |].
  rewrite drop_0 in Hb. change (Z.of_nat 0) with 0 in Hrun.
  unfold utf8_validate. rewrite Hrun. f_equal.
  apply Hb, well_formed_ascii, Hascii.
Qed.

Lemma X10_validate_ascii_witness :
  0 <= 2 <= size [Byte.x48; NUL; Byte.xff] /\ 2 + 2 <= SIZE_MAX
  /\ Forall (fun b => u8 b <= 0x7F) (take (Z.to_nat 2) [Byte.x48; NUL; Byte.xff])
  /\ utf8_validate (Some [Byte.x48; NUL; Byte.xff]) 2 = Done true.
Proof.
  assert (0 <= 2 <= size [Byte.x48; NUL; Byte.xff]) as Hl
    by (split; vm_compute; congruence).
  assert (2 + 2 <= SIZE_MAX) as Hm by (vm_compute; congruence).
  assert (Forall (fun b => u8 b <= 0x7F)
            (take (Z.to_nat 2) [Byte.x48; NUL; Byte.xff])) as Ha.
  { simpl. repeat constructor; vm_compute; congruence. }
  split; [exact Hl|]. split; [exact Hm|]. split; [exact Ha|].
  exact (X10_validate_ascii _ 2 Hl Hm Ha).
Defined.

(** X11. A span that holds one of the bytes C0, C1, F5..FF anywhere is
    rejected, whatever surrounds that byte. *)
Theorem X11_validate_forbidden_byte (bytes : block) (length : Z) (i : nat) (b : byte) :
  0 <= length <= size bytes -> length + 2 <= SIZE_MAX ->
  Z.of_nat i < length -> bytes !! i = Some b ->
  u8 b = 0xC0 \/ u8 b = 0xC1 \/ 0xF5 <= u8 b ->
  utf8_validate (Some bytes) length = Done false.
Proof.
  intros Hlen Hmax Hi Hb Hbad.
  destruct (validate_loop_spec bytes length Hlen Hmax (Z.to_nat length) 0%nat)
    as (r & Hrun & Hr); [lia | lia |].
  rewrite drop_0 in Hr. change (Z.of_nat 0) with 0 in Hrun.
  unfold utf8_validate. rewrite Hrun. f_equal.
  destruct r; [|reflexivity]. exfalso.
  pose proof (well_formed_bytes _ (proj1 Hr eq_refl)) as Hall.
  rewrite Forall_lookup in Hall.
  specialize (Hall i b). rewrite lookup_take_lt in Hall by lia.
  specialize (Hall Hb). simpl in Hall. lia.
Qed.

Lemma X11_validate_forbidden_byte_witness :
  0 <= 3 <= size [Byte.x48; Byte.xc0; Byte.x80] /\ 3 + 2 <= SIZE_MAX
  /\ Z.of_nat 1 < 3 /\ [Byte.x48; Byte.xc0; Byte.x80] !! 1%nat = Some Byte.xc0
  /\ (u8 Byte.xc0 = 0xC0 \/ u8 Byte.xc0 = 0xC1 \/ 0xF5 <= u8 Byte.xc0)
  /\ utf8_validate (Some [Byte.x48; Byte.xc0; Byte.x80]) 3 = Done false.
Proof.
  assert (0 <= 3 <= size [Byte.x48; Byte.xc0; Byte.x80]) as Hl
    by (split; vm_compute; congruence).
  assert (3 + 2 <= SIZE_MAX) as Hm by (vm_compute; congruence).
  assert (Z.of_nat 1 < 3) as Hi by reflexivity.
  assert (u8 Byte.xc0 = 0xC0 \/ u8 Byte.xc0 = 0xC1 \/ 0xF5 <= u8 Byte.xc0) as Hb
    by (left; reflexivity).
  split; [exact Hl|]. split; [exact Hm|]. split; [exact Hi|].
  split; [reflexivity|]. split; [exact Hb|].
  exact (X11_validate_forbidden_byte _ 3 1%nat Byte.xc0 Hl Hm Hi eq_refl Hb).
Defined.

(** X12. Validation goes encoding by encoding without looking back:
    behind a block that is accepted, a second block is accepted exactly
    when it is accepted on its own. *)
Theorem X12_validate_app (a b : block) :
  size (a ++ b) + 2 <= SIZE_MAX ->
  utf8_validate (Some a) (size a) = Done true ->
  utf8_validate (Some (a ++ b)) (size (a ++ b)) = utf8_validate (Some b) (size b).
Proof.
  intros Hmax Ha.
  assert (size (a ++ b) = size a + size b) as Hsz.
  { unfold size. rewrite length_app. lia. }
  pose proof (size_nonneg a). pose proof (size_nonneg b).
  destruct (validate_whole a) as (ra & Hra & Hwa); [lia|].
  destruct (validate_whole b) as (rb & Hrb & Hwb); [lia|].
  destruct (validate_whole (a ++ b) Hmax) as (rab & Hrab & Hwab).
  rewrite Hra in Ha. injection Ha as ->.
  rewrite Hrab, Hrb. f_equal.
  apply (verdict_eq _ _ _ _ Hwab Hwb).
  pose proof (proj1 Hwa eq_refl) as Hwfa. split.
  - apply well_formed_app_inv. exact Hwfa.
  - apply well_formed_app. exact Hwfa.
Qed.

Lemma X12_validate_app_witness :
  size ([Byte.xc2; Byte.x80] ++ [Byte.xe2; Byte.x82]) + 2 <= SIZE_MAX
  /\ utf8_validate (Some [Byte.xc2; Byte.x80]) (size [Byte.xc2; Byte.x80]) = Done true
  /\ utf8_validate (Some ([Byte.xc2; Byte.x80] ++ [Byte.xe2; Byte.x82]))
       (size ([Byte.xc2; Byte.x80] ++ [Byte.xe2; Byte.x82]))
     = utf8_validate (Some [Byte.xe2; Byte.x82]) (size [Byte.xe2; Byte.x82]).
Proof.
  assert (size ([Byte.xc2; Byte.x80] ++ [Byte.xe2; Byte.x82]) + 2 <= SIZE_MAX)
    as Hm by (vm_compute; congruence).
  split; [exact Hm|]. split; [reflexivity|].
  exact (X12_validate_app [Byte.xc2; Byte.x80] [Byte.xe2; Byte.x82] Hm eq_refl).
Defined.

(** X13. A length that ends inside an encoding is rejected: behind an
    accepted block, the first [k] bytes of an encoding of more than [k]
    bytes do not pass, whatever follows in the block. *)
Theorem X13_validate_truncated (a enc rest : block) (k : nat) :
  size (a ++ enc ++ rest) + 2 <= SIZE_MAX ->
  utf8_validate (Some a) (size a) = Done true ->
  encoding enc -> (0 < k < length enc)%nat ->
  utf8_validate (Some (a ++ enc ++ rest)) (size a + Z.of_nat k) = Done false.
Proof.
  intros Hmax Ha Henc Hk.
  assert (size (a ++ enc ++ rest) = size a + size enc + size rest) as Hsz.
  { unfold size. rewrite !length_app. lia. }
  pose proof (size_nonneg a). pose proof (size_nonneg rest).
  assert (size enc = Z.of_nat (length enc)) as Hse by reflexivity.
  destruct (validate_whole a) as (ra & Hra & Hwa); [lia|].
  rewrite Hra in Ha. injection Ha as ->.
  pose proof (proj1 Hwa eq_refl) as Hwfa.
  destruct (validate_loop_spec (a ++ enc ++ rest) (size a + Z.of_nat k)
              ltac:(lia) ltac:(lia) (Z.to_nat (size a + Z.of_nat k)) 0%nat)
    as (r & Hrun & Hr); [lia | lia |].
  rewrite drop_0 in Hr. change (Z.of_nat 0) with 0 in Hrun.
  unfold utf8_validate. rewrite Hrun. f_equal.
  destruct r; [|reflexivity]. exfalso.
  pose proof (proj1 Hr eq_refl) as Hwf.
  replace (Z.to_nat (size a + Z.of_nat k)) with (length a + k)%nat in Hwf
    by (unfold size; lia).
  rewrite take_app_add in Hwf.
  apply (well_formed_app_inv _ _ Hwfa) in Hwf.
  rewrite take_app_le in Hwf by lia.
  destruct Henc as [b0 conts Hc _ _ _ _].
  destruct k as [|k]; [lia|]. simpl in Hwf, Hk.
  apply well_formed_cons in Hwf as (n & Hn & Hle & _).
  assert (n = length conts) as -> by congruence.
  rewrite length_take in Hle. lia.
Qed.

Lemma X13_validate_truncated_witness :
  size ([Byte.x48] ++ [Byte.xe2; Byte.x82; Byte.xac] ++ [Byte.x21]) + 2 <= SIZE_MAX
  /\ utf8_validate (Some [Byte.x48]) (size [Byte.x48]) = Done true
  /\ encoding [Byte.xe2; Byte.x82; Byte.xac]
  /\ (0 < 2 < length [Byte.xe2; Byte.x82; Byte.xac])%nat
  /\ utf8_validate (Some ([Byte.x48] ++ [Byte.xe2; Byte.x82; Byte.xac] ++ [Byte.x21]))
       (size [Byte.x48] + Z.of_nat 2) = Done false.
Proof.
  assert (size ([Byte.x48] ++ [Byte.xe2; Byte.x82; Byte.xac] ++ [Byte.x21]) + 2
          <= SIZE_MAX) as Hm by (vm_compute; congruence).
  assert (encoding [Byte.xe2; Byte.x82; Byte.xac]) as He.
  { apply encoding_intro;
      [ reflexivity | repeat constructor | vm_compute; congruence
      | intros [H _]; apply H; reflexivity | vm_compute; congruence ]. }
  assert (0 < 2 < length [Byte.xe2; Byte.x82; Byte.xac])%nat as Hk by (simpl; lia).
  split; [exact Hm|]. split; [reflexivity|]. split; [exact He|]. split; [exact Hk|].
  exact (X13_validate_truncated _ _ _ 2%nat Hm eq_refl He Hk).
Defined.

(** X14. The verdict depends on the first [length] bytes only: two blocks
    that agree there get the same answer, whatever lies behind. *)
Theorem X14_validate_span_only (d1 d2 : block) (length : Z) :
  0 <= length <= size d1 -> 0 <= length <= size d2 -> length + 2 <= SIZE_MAX ->
  take (Z.to_nat length) d1 = take (Z.to_nat length) d2 ->
  utf8_validate (Some d1) length = utf8_validate (Some d2) length.
Proof.
  intros H1 H2 Hmax Heq.
  destruct (validate_loop_spec d1 length H1 Hmax (Z.to_nat length) 0%nat)
    as (r1 & Hrun1 & Hr1); [lia | lia |].
  destruct (validate_loop_spec d2 length H2 Hmax (Z.to_nat length) 0%nat)
    as (r2 & Hrun2 & Hr2); [lia | lia |].
  change (Z.of_nat 0) with 0 in Hrun1, Hrun2.
  unfold utf8_validate. rewrite Hrun1, Hrun2. f_equal.
  rewrite drop_0 in Hr1, Hr2. rewrite Heq in Hr1.
  apply (verdict_eq _ _ _ _ Hr1 Hr2). reflexivity.
Qed.

Lemma X14_validate_span_only_witness :
  0 <= 1 <= size [Byte.x48; Byte.xff] /\ 0 <= 1 <= size [Byte.x48; Byte.xc0; NUL]
  /\ 1 + 2 <= SIZE_MAX
  /\ take (Z.to_nat 1) [Byte.x48; Byte.xff] = take (Z.to_nat 1) [Byte.x48; Byte.xc0; NUL]
  /\ utf8_validate (Some [Byte.x48; Byte.xff]) 1
     = utf8_validate (Some [Byte.x48; Byte.xc0; NUL]) 1.
Proof.
  assert (0 <= 1 <= size [Byte.x48; Byte.xff]) as H1 by (split; vm_compute; congruence).
  assert (0 <= 1 <= size [Byte.x48; Byte.xc0; NUL]) as H2
    by (split; vm_compute; congruence).
  assert (1 + 2 <= SIZE_MAX) as Hm by (vm_compute; congruence).
  split; [exact H1|]. split; [exact H2|]. split; [exact Hm|]. split; [reflexivity|].
  exact (X14_validate_span_only _ _ 1 H1 H2 Hm eq_refl).
Defined.

(** ** Construction and the C-string view *)

Lemma until_nul_app_nul (l : list byte) :
  NUL ∉ l -> until_nul (l ++ [NUL]) = l.
Proof.
  induction l as [|b l IH]; intros Hn; simpl; [reflexivity|].
  destruct (u8 b =? 0) eqn:Hb.
  - apply Z.eqb_eq, u8_NUL in Hb. subst b. exfalso. apply Hn. left.
  - f_equal. apply IH. intros Hin. apply Hn. right. exact Hin.
Qed.

(** X1. [str_from_cstr], when its allocation is granted, copies the C
    string exactly: the result satisfies the invariant, holds the bytes
    before the first zero byte and their terminator in a block of just
    that size, and reads back through [str_data] as a C string of length
    [len]; copying the copy gives the same String again, whatever fresh
    memory held. *)
Theorem X1_from_cstr_round_trip (h h' : allocator) (src : block) (i : nat) :
  grants h = true -> grants h' = true ->
  src !! i = Some NUL -> size src <= SIZE_MAX ->
  exists r,
    str_from_cstr h (Some src) = Done r
    /\ Inv r
    /\ content r = until_nul src
    /\ str_data (Some r) = until_nul src ++ [NUL]
    /\ strlen (str_data (Some r)) = Done (len r)
    /\ cap r = len r + 1
    /\ ((NUL ∉ take i src) -> content r = take i src)
    /\ str_from_cstr h' (Some (str_data (Some r))) = Done r.
Proof.
  intros Hg Hg' Hi Hmax.
  pose proof (until_nul_length_le src i Hi) as Hle.
  pose proof (lookup_lt_Some _ _ _ Hi) as Hlt.
  pose proof (until_nul_free src) as Hfree.
  destruct (from_cstr_Inv (until_nul src)) as [HI Hc];
    [unfold size in Hmax; lia|].
  assert ((until_nul src ++ [NUL]) !! length (until_nul src) = Some NUL) as Hterm.
  { apply list_lookup_middle. reflexivity. }
  eexists. split; [exact (from_cstr_granted h src i Hg Hi Hmax)|].
  split; [exact HI|]. split; [exact Hc|]. split; [reflexivity|].
  split.
  { simpl. rewrite (strlen_spec _ _ Hterm), until_nul_app_nul by exact Hfree.
    reflexivity. }
  split; [reflexivity|]. split.
  { intros Hn. rewrite Hc, (until_nul_take src i Hi).
    apply until_nul_no_nul. exact Hn. }
  cbn [str_data data]. rewrite (from_cstr_granted h' _ _ Hg' Hterm).
  - rewrite until_nul_app_nul by exact Hfree. reflexivity.
  - unfold size in *. rewrite length_app. simpl. lia.
Qed.

Lemma X1_from_cstr_round_trip_witness :
  grants ok_heap = true /\ grants ok_heap = true
  /\ [Byte.x61; Byte.x62; NUL; Byte.x63] !! 2%nat = Some NUL
  /\ size [Byte.x61; Byte.x62; NUL; Byte.x63] <= SIZE_MAX
  /\ exists r,
       str_from_cstr ok_heap (Some [Byte.x61; Byte.x62; NUL; Byte.x63]) = Done r
       /\ Inv r
       /\ content r = until_nul [Byte.x61; Byte.x62; NUL; Byte.x63]
       /\ str_data (Some r) = until_nul [Byte.x61; Byte.x62; NUL; Byte.x63] ++ [NUL]
       /\ strlen (str_data (Some r)) = Done (len r)
       /\ cap r = len r + 1
       /\ ((NUL ∉ take 2 [Byte.x61; Byte.x62; NUL; Byte.x63]) ->
           content r = take 2 [Byte.x61; Byte.x62; NUL; Byte.x63])
       /\ str_from_cstr ok_heap (Some (str_data (Some r))) = Done r.
Proof.
  assert (size [Byte.x61; Byte.x62; NUL; Byte.x63] <= SIZE_MAX) as Hm
    by (vm_compute; congruence).
  split; [reflexivity|]. split; [reflexivity|]. split; [reflexivity|].
  split; [exact Hm|].
  exact (X1_from_cstr_round_trip ok_heap ok_heap
           [Byte.x61; Byte.x62; NUL; Byte.x63] 2%nat eq_refl eq_refl eq_refl Hm).
Defined.

(** X2. What a C caller sees through [str_data]: a terminated string made
    of the logical bytes up to the first zero byte.  It is the whole
    content, and [strlen] is the length of the content, exactly when the
    content holds no zero byte. *)
Theorem X2_str_data_view (p : option String) :
  Inv_ptr p ->
  strlen (str_data p) = Done (Z.of_nat (length (until_nul (content_of p))))
  /\ take (length (until_nul (content_of p))) (str_data p) = until_nul (content_of p)
  /\ (length (until_nul (content_of p)) <= length (content_of p))%nat
  /\ ((NUL ∉ content_of p)
      <-> length (until_nul (content_of p)) = length (content_of p)).
Proof.
  intros Hp. destruct (str_data_terminated p Hp) as (i & Hi & _ & Hu).
  split; [rewrite (strlen_spec _ i Hi), Hu; reflexivity|].
  split; [rewrite <- Hu; apply until_nul_take_length|].
  split; [apply until_nul_length|].
  split.
  - intros Hn. rewrite until_nul_no_nul by exact Hn. reflexivity.
  - intros Hl Hin. pose proof (until_nul_free (content_of p)) as Hfree.
    pose proof (until_nul_take_length (content_of p)) as Ht.
    rewrite Hl, take_ge in Ht by lia. rewrite <- Ht in Hfree. auto.
Qed.

Lemma X2_str_data_view_witness :
  Inv_ptr (Some str_x0y)
  /\ strlen (str_data (Some str_x0y))
     = Done (Z.of_nat (length (until_nul (content_of (Some str_x0y)))))
  /\ take (length (until_nul (content_of (Some str_x0y)))) (str_data (Some str_x0y))
     = until_nul (content_of (Some str_x0y))
  /\ (length (until_nul (content_of (Some str_x0y)))
      <= length (content_of (Some str_x0y)))%nat
  /\ ((NUL ∉ content_of (Some str_x0y))
      <-> length (until_nul (content_of (Some str_x0y)))
          = length (content_of (Some str_x0y))).
Proof.
  assert (Inv_ptr (Some str_x0y)) as Hp by (repeat split; vm_compute; congruence).
  split; [exact Hp | exact (X2_str_data_view (Some str_x0y) Hp)].
Defined.

(** ** Growth and appending *)


(** X3. [str_reserve] never touches the logical bytes or the length and
    never lowers the capacity: when the request exceeds the capacity and
    is granted, the capacity becomes the request and the block has that
    size; otherwise the buffer is as it was. *)
Theorem X3_reserve (h : allocator) (s : String) (new_cap : Z) :
  ready s -> 0 <= new_cap <= SIZE_MAX ->
  exists s',
    str_reserve h (Some s) new_cap = Some s'
    /\ ready s'
    /\ content s' = content s
    /\ len s' = len s
    /\ cap s <= cap s'
    /\ (grants h = true -> cap s' = Z.max (cap s) new_cap)
    /\ (grants h = false \/ new_cap <= cap s -> s' = s).
Proof.
  intros [Hw Hr] Hn. exists (reserve h s new_cap). split; [reflexivity|].
  destruct (Z_le_gt_dec new_cap (cap s)) as [Hle|Hgt].
  { rewrite reserve_enough by exact Hle.
    repeat split; try apply Hw; try assumption; try lia. }
  destruct (grants h) eqn:Hg.
  2:{ rewrite reserve_refused by exact Hg.
      repeat split; try apply Hw; try assumption; try lia. }
  destruct (reserve_granted h s new_cap Hg Hw) as (blk' & -> & Hsz & Hold); [lia|].
  destruct Hw as (Hl & Hc & Hs). unfold content.
  destruct (data s) as [old|].
  - specialize (Hold old eq_refl). unfold size in *.
    repeat split; simpl; unfold size; try lia.
    rewrite <- Hold at 1. rewrite take_take. f_equal. lia.
  - destruct Hr as [Hl0 Hc0]. unfold size in *.
    repeat split; simpl; unfold size; try lia.
    rewrite Hl0. reflexivity.
Qed.

Lemma X3_reserve_witness :
  ready str_ab /\ 0 <= 8 <= SIZE_MAX
  /\ exists s',
       str_reserve ok_heap (Some str_ab) 8 = Some s'
       /\ ready s'
       /\ content s' = content str_ab
       /\ len s' = len str_ab
       /\ cap str_ab <= cap s'
       /\ (grants ok_heap = true -> cap s' = Z.max (cap str_ab) 8)
       /\ (grants ok_heap = false \/ 8 <= cap str_ab -> s' = str_ab).
Proof.
  assert (ready str_ab) as Hr by (repeat split; vm_compute; congruence).
  assert (0 <= 8 <= SIZE_MAX) as Hn by (split; vm_compute; congruence).
  split; [exact Hr|]. split; [exact Hn|].
  exact (X3_reserve ok_heap str_ab 8 Hr Hn).
Defined.

(** [str_push_back] on a buffer that is ready for it. *)
Lemma push_back_ready (h : allocator) (s : String) (c : byte) :
  ready s -> (grants h = true \/ len s + 1 < cap s) -> 2 * cap s <= SIZE_MAX ->
  exists s',
    push_back h s c = Done s'
    /\ Inv s'
    /\ content s' = content s ++ [c]
    /\ len s' = len s + 1
    /\ cap s' = (if len s + 1 <? cap s then cap s
                 else if cap s =? 0 then 2 else 2 * cap s).
Proof.
  intros [Hw Hi] Hg Hmax. pose proof Hw as (Hl & Hc & Hs).
  pose proof SIZE_MAX_eq as HM.
  assert (len s + 1 <= SIZE_MAX) as Hl1 by (destruct (data s); lia).
  assert (exists blk1 cap1,
             (if wrap (len s + 1) >=? cap s
              then reserve h s (if cap s =? 0 then 2 else wrap (cap s * 2))
              else s)
             = {| data := Some blk1; len := len s; cap := cap1 |}
             /\ size blk1 = cap1 /\ len s + 1 < cap1 <= SIZE_MAX
             /\ cap1 = (if len s + 1 <? cap s then cap s
                        else if cap s =? 0 then 2 else 2 * cap s)
             /\ take (Z.to_nat (len s)) blk1 = content s) as Hs1.
  { rewrite wrap_small by lia.
    destruct (Z_lt_ge_dec (len s + 1) (cap s)) as [Hroom|Hfull].
    - cmp. unfold content in *.
      destruct s as [[old|] l cp]; simpl in *; [|lia].
      exists old, cp. repeat split; try lia; reflexivity.
    - cmp. destruct Hg as [Hg|Hg]; [|lia].
      assert (cap s < (if cap s =? 0 then 2 else wrap (cap s * 2))
              /\ len s + 1 < (if cap s =? 0 then 2 else wrap (cap s * 2))
                 <= SIZE_MAX
              /\ (if cap s =? 0 then 2 else wrap (cap s * 2))
                 = (if cap s =? 0 then 2 else 2 * cap s)) as (Hgrow & Hfit & Heq).
      { destruct (Z.eq_dec (cap s) 0) as [H0|H0]; cmp.
        - destruct (data s); lia.
        - rewrite wrap_small by lia. destruct (data s); lia. }
      destruct (reserve_granted h s _ Hg Hw Hgrow) as (blk' & -> & Hsz & Hold).
      eexists. eexists. split; [reflexivity|].
      split; [exact Hsz|]. split; [exact Hfit|]. split; [exact Heq|].
      unfold content in *.
      destruct (data s) as [old|].
      + rewrite <- (Hold old eq_refl) at 1. rewrite take_take. f_equal.
        unfold size in Hs. lia.
      + replace (len s) with 0 by lia. reflexivity. }
  destruct Hs1 as (blk1 & cap1 & Hs1 & Hsz1 & Hfit & Hcap & Hc1).
  unfold push_back. rewrite Hs1. cbn [data len cap].
  rewrite store_in by lia. cbn [bind].
  rewrite (wrap_small (len s + 1)) by lia.
  rewrite store_in by (rewrite size_insert; lia). cbn [bind].
  eexists. split; [reflexivity|].
  unfold Inv, well_allocated, buffer_invariant, content. cbn [data len cap].
  unfold size in *.
  repeat split; try lia.
  - rewrite !length_insert. lia.
  - apply list_lookup_insert_eq. rewrite length_insert. lia.
  - replace (Z.to_nat (len s + 1)) with (S (Z.to_nat (len s))) by lia.
    rewrite take_insert_ge by lia.
    erewrite take_S_r by (apply list_lookup_insert_eq; lia).
    rewrite take_insert_ge by lia. rewrite Hc1. reflexivity.
Qed.






(** ** Concatenation in place *)

Lemma concat_cap (h : allocator) (d sr d' : String) :
  data sr <> None ->
  str_concat h (Some d) (other (Some sr)) = Done (Some d') ->
  cap d' = cap (if wrap (wrap (len d + len sr) + 1) >? cap d
                then reserve h d (wrap (wrap (len d + len sr) + 1)) else d).
Proof.
  intros Hs. unfold str_concat.
  destruct (data sr) as [sblk|]; [|congruence].
  destruct (data (if _ >? _ then _ else _)) as [dblk|].
  - destruct (memcpy _ _ _ _ _); cbn [bind]; intros [= <-]; reflexivity.
  - intros [= <-]. reflexivity.
Qed.

(** X6. With a source that is another object than the destination, both
    under the invariant and their summed length and terminator fitting
    [size_t]: [str_concat] appends the source's logical bytes and
    terminator to the destination and keeps the invariant, when the
    destination has room or its growth is granted.  It grows to exactly the
    size needed, and only when the capacity falls short; a source without
    storage leaves the destination as it is. *)
Theorem X6_concat (h : allocator) (d sr : String) :
  Inv d -> Inv sr ->
  (grants h = true \/ len d + len sr + 1 <= cap d) ->
  len d + len sr + 1 <= SIZE_MAX ->
  exists d',
    str_concat h (Some d) (other (Some sr)) = Done (Some d')
    /\ Inv d'
    /\ content d' = content d ++ content sr
    /\ len d' = len d + len sr
    /\ (data sr <> None -> cap d' = Z.max (cap d) (len d + len sr + 1))
    /\ (data sr = None -> d' = d).
Proof.
  intros Hd Hs Hg Hmax.
  pose proof (content_length_Inv d Hd) as Hld.
  pose proof (content_length_Inv sr Hs) as Hls.
  destruct (data sr) as [sblk|] eqn:Hsd.
  - destruct (concat_spec h d sr Hd Hs ltac:(congruence) Hg Hmax)
      as (d' & Hrun & HI & Hc).
    exists d'. split; [exact Hrun|]. split; [exact HI|]. split; [exact Hc|].
    pose proof (content_length_Inv d' HI) as Hld'.
    rewrite Hc, length_app in Hld'.
    split; [lia|]. split; [|discriminate]. intros _.
    rewrite (concat_cap h d sr d' ltac:(congruence) Hrun).
    destruct Hd as [Hwd _]. pose proof Hwd as (Hl & Hcp & _).
    destruct Hs as [(Hl' & _) _].
    rewrite (wrap_small (len d + len sr)) by lia.
    rewrite (wrap_small (len d + len sr + 1)) by lia.
    destruct (Z_le_gt_dec (len d + len sr + 1) (cap d)) as [Hroom|Hfull]; cmp; [lia|].
    destruct Hg as [Hg|Hg]; [|lia].
    destruct (reserve_granted h d (len d + len sr + 1) Hg Hwd) as (blk' & -> & _);
      [lia|]. simpl. lia.
  - exists d. unfold str_concat. rewrite Hsd.
    split; [reflexivity|]. split; [exact Hd|].
    rewrite (content_no_storage sr Hsd), app_nil_r. simpl in Hls.
    rewrite (content_no_storage sr Hsd) in Hls. simpl in Hls.
    split; [reflexivity|]. split; [lia|]. split; [congruence | reflexivity].
Qed.

Lemma X6_concat_witness :
  Inv str_ab /\ Inv str_x0y
  /\ (grants ok_heap = true \/ len str_ab + len str_x0y + 1 <= cap str_ab)
  /\ len str_ab + len str_x0y + 1 <= SIZE_MAX
  /\ exists d',
       str_concat ok_heap (Some str_ab) (other (Some str_x0y)) = Done (Some d')
       /\ Inv d'
       /\ content d' = content str_ab ++ content str_x0y
       /\ len d' = len str_ab + len str_x0y
       /\ (data str_x0y <> None ->
           cap d' = Z.max (cap str_ab) (len str_ab + len str_x0y + 1))
       /\ (data str_x0y = None -> d' = str_ab).
Proof.
  assert (Inv str_ab) as Ha by (repeat split; vm_compute; congruence).
  assert (Inv str_x0y) as Hb by (repeat split; vm_compute; congruence).
  assert (grants ok_heap = true \/ len str_ab + len str_x0y + 1 <= cap str_ab)
    as Hg by (left; reflexivity).
  assert (len str_ab + len str_x0y + 1 <= SIZE_MAX) as Hm by (vm_compute; congruence).
  split; [exact Ha|]. split; [exact Hb|]. split; [exact Hg|]. split; [exact Hm|].
  exact (X6_concat ok_heap str_ab str_x0y Ha Hb Hg Hm).
Defined.

(** X7. On two distinct buffers under the invariant that have storage,
    their summed length and terminator fitting [size_t] and both
    allocations granted, [str_concat] and [str_plus] agree: the
    destination after concatenating in place holds the same logical bytes,
    zero bytes included, and has the same length as the new String
    [str_plus] returns. *)
Theorem X7_concat_agrees_with_plus (h1 h2 : allocator) (d sr : String) :
  grants h1 = true -> grants h2 = true ->
  Inv d -> Inv sr -> data d <> None -> data sr <> None ->
  len d + len sr + 1 <= SIZE_MAX ->
  exists d' r,
    str_concat h1 (Some d) (other (Some sr)) = Done (Some d')
    /\ str_plus h2 (Some d) (Some sr) = Done r
    /\ content d' = content r
    /\ len d' = len r.
Proof.
  intros Hg1 Hg2 Hd Hs Hdd Hsd Hmax.
  destruct (concat_spec h1 d sr Hd Hs Hsd (or_introl Hg1) Hmax)
    as (d' & Hrun & HI & Hc).
  destruct (data d) as [dblk|] eqn:Ed; [|congruence].
  destruct (data sr) as [sblk|] eqn:Es; [|congruence].
  pose proof (plus_both h2 d sr dblk sblk Hg2 Hd Hs Ed Es Hmax) as Hplus.
  pose proof (content_length_Inv d Hd) as Hld.
  pose proof (content_length_Inv sr Hs) as Hls.
  destruct (String_of_Inv (content d ++ content sr)) as [HIr Hcr];
    [rewrite length_app; lia|].
  exists d', (String_of (content d ++ content sr)).
  split; [exact Hrun|]. split; [exact Hplus|].
  split; [rewrite Hc, Hcr; reflexivity|].
  rewrite <- (content_length_Inv d' HI), <- (content_length_Inv _ HIr), Hc, Hcr.
  reflexivity.
Qed.

Lemma X7_concat_agrees_with_plus_witness :
  grants ok_heap = true /\ grants ok_heap = true
  /\ Inv str_x0y /\ Inv str_z /\ data str_x0y <> None /\ data str_z <> None
  /\ len str_x0y + len str_z + 1 <= SIZE_MAX
  /\ exists d' r,
       str_concat ok_heap (Some str_x0y) (other (Some str_z)) = Done (Some d')
       /\ str_plus ok_heap (Some str_x0y) (Some str_z) = Done r
       /\ content d' = content r
       /\ len d' = len r.
Proof.
  assert (Inv str_x0y) as Ha by (repeat split; vm_compute; congruence).
  assert (Inv str_z) as Hb by (repeat split; vm_compute; congruence).
  assert (data str_x0y <> None) as Hda by discriminate.
  assert (data str_z <> None) as Hdb by discriminate.
  assert (len str_x0y + len str_z + 1 <= SIZE_MAX) as Hm by (vm_compute; congruence).
  split; [reflexivity|]. split; [reflexivity|]. split; [exact Ha|].
  split; [exact Hb|]. split; [exact Hda|]. split; [exact Hdb|]. split; [exact Hm|].
  exact (X7_concat_agrees_with_plus ok_heap ok_heap str_x0y str_z
           eq_refl eq_refl Ha Hb Hda Hdb Hm).
Defined.

(** [str_reserve] changes neither the length nor a block into no block. *)
Lemma reserve_len (h : allocator) (s : String) (n : Z) :
  len (reserve h s n) = len s.
Proof.
  unfold reserve. destruct (n >? cap s); [|reflexivity].
  destruct (realloc h (data s) n); reflexivity.
Qed.

Lemma reserve_storage (h : allocator) (s : String) (n : Z) :
  data s <> None -> data (reserve h s n) <> None.
Proof.
  intros Hd. unfold reserve. destruct (n >? cap s); [|exact Hd].
  destruct (realloc h (data s) n); [discriminate | exact Hd].
Qed.

(** X22. [str_concat(&s, &s)], a String appended to itself: when [s] has
    storage and its length is below [SIZE_MAX], the call is undefined
    whatever the capacity and the allocator's answer, since [memcpy] then
    reads the bytes [0 .. len] and writes the bytes [len .. 2 len] of one
    block, which share the byte at [len]; when [s] has no storage, the call
    leaves it as it is. *)
Theorem X22_concat_with_itself (h : allocator) (s : String) :
  0 <= len s < SIZE_MAX ->
  (data s <> None -> str_concat h (Some s) same_as_dest = Fault)
  /\ (data s = None -> str_concat h (Some s) same_as_dest = Done (Some s)).
Proof.
  intros Hl. split; intros Hd; unfold str_concat.
  - destruct (data s) as [blk|] eqn:Hs; [|congruence].
    remember (wrap (wrap (len s + len s) + 1)) as needed eqn:En.
    assert (exists d1, (if needed >? cap s then reserve h s needed else s) = d1
                       /\ len d1 = len s /\ data d1 <> None)
      as (d1 & -> & Hl1 & Hd1).
    { eexists. split; [reflexivity|].
      destruct (needed >? cap s).
      - split; [apply reserve_len | apply reserve_storage; congruence].
      - split; [reflexivity | congruence]. }
    destruct (data d1) as [dblk|]; [|congruence].
    unfold memcpy_within. rewrite Hl1.
    rewrite (wrap_small (len s + 1)) by lia. cmp. reflexivity.
  - destruct (data s); [congruence | reflexivity].
Qed.

Lemma X22_concat_with_itself_witness :
  0 <= len str_ab < SIZE_MAX
  /\ (data str_ab <> None -> str_concat ok_heap (Some str_ab) same_as_dest = Fault)
  /\ (data str_ab = None
      -> str_concat ok_heap (Some str_ab) same_as_dest = Done (Some str_ab)).
Proof.
  assert (0 <= len str_ab < SIZE_MAX) as Hl by (split; vm_compute; congruence).
  split; [exact Hl | exact (X22_concat_with_itself ok_heap str_ab Hl)].
Defined.

(** ** Allocation refused *)

(** X8. When the allocator refuses to grow a full buffer that has
    storage, neither [str_push_back] nor [str_concat] stops: the first
    writes its terminator, the second its copy, behind the end of the
    block. *)
Theorem X8_refused_growth_overruns (h : allocator) (s sr : String) (c : byte) :
  grants h = false -> Inv s -> data s <> None -> cap s = len s + 1 ->
  Inv sr -> data sr <> None -> 1 <= len sr -> len s + len sr + 1 <= SIZE_MAX ->
  str_push_back h (Some s) c = Fault
  /\ str_concat h (Some s) (other (Some sr)) = Fault.
Proof.
  intros Hg Hs Hd Hfull Hsr Hdr Hl Hmax. split.
  - unfold str_push_back.
    rewrite (push_back_refused_overrun h s c Hg Hs Hd Hfull). reflexivity.
  - apply concat_refused_overrun; try assumption. lia.
Qed.

Lemma X8_refused_growth_overruns_witness :
  grants no_heap = false /\ Inv str_ab /\ data str_ab <> None
  /\ cap str_ab = len str_ab + 1
  /\ Inv str_z /\ data str_z <> None /\ 1 <= len str_z
  /\ len str_ab + len str_z + 1 <= SIZE_MAX
  /\ str_push_back no_heap (Some str_ab) Byte.x63 = Fault
  /\ str_concat no_heap (Some str_ab) (other (Some str_z)) = Fault.
Proof.
  assert (Inv str_ab) as Ha by (repeat split; vm_compute; congruence).
  assert (Inv str_z) as Hz by (repeat split; vm_compute; congruence).
  assert (data str_ab <> None) as Hda by discriminate.
  assert (data str_z <> None) as Hdz by discriminate.
  assert (1 <= len str_z) as Hl by (vm_compute; congruence).
  assert (len str_ab + len str_z + 1 <= SIZE_MAX) as Hm by (vm_compute; congruence).
  split; [reflexivity|]. split; [exact Ha|]. split; [exact Hda|].
  split; [reflexivity|]. split; [exact Hz|]. split; [exact Hdz|].
  split; [exact Hl|]. split; [exact Hm|].
  exact (X8_refused_growth_overruns no_heap str_ab str_z Byte.x63
           eq_refl Ha Hda eq_refl Hz Hdz Hl Hm).
Defined.

(** X9. The String a refused [str_from_cstr] returns for a non-empty C
    string has no storage but a capacity of two or more, and
    [str_push_back] then never appends to it: the capacity test finds
    room, no growth is asked for, and the missing storage skips the
    write, whatever the allocator would have answered. *)
Theorem X9_refused_copy_takes_no_byte (h0 h : allocator) (src : block) (i : nat) (c : byte) :
  grants h0 = false -> src !! i = Some NUL -> size src <= SIZE_MAX ->
  src !! 0%nat <> Some NUL ->
  exists s,
    str_from_cstr h0 (Some src) = Done s
    /\ data s = None /\ len s = 0 /\ 2 <= cap s
    /\ str_push_back h (Some s) c = Done (Some s).
Proof.
  intros Hg Hi Hmax H0.
  pose proof (until_nul_length_le src i Hi) as Hle.
  pose proof (lookup_lt_Some _ _ _ Hi) as Hlt.
  assert (1 <= length (until_nul src))%nat as Hn.
  { destruct src as [|b src]; [discriminate|]. simpl in *.
    destruct (u8 b =? 0) eqn:Hb; [|simpl; lia].
    apply Z.eqb_eq, u8_NUL in Hb. subst b. congruence. }
  eexists. split; [exact (from_cstr_refused h0 src i Hg Hi Hmax)|].
  split; [reflexivity|]. split; [reflexivity|]. split; [simpl; lia|].
  unfold str_push_back, push_back. cbn [data len cap].
  unfold size in Hmax.
  rewrite (wrap_small (0 + 1)) by (pose proof SIZE_MAX_eq; lia). cmp.
  reflexivity.
Qed.

Lemma X9_refused_copy_takes_no_byte_witness :
  grants no_heap = false /\ [Byte.x61; Byte.x62; NUL] !! 2%nat = Some NUL
  /\ size [Byte.x61; Byte.x62; NUL] <= SIZE_MAX
  /\ [Byte.x61; Byte.x62; NUL] !! 0%nat <> Some NUL
  /\ exists s,
       str_from_cstr no_heap (Some [Byte.x61; Byte.x62; NUL]) = Done s
       /\ data s = None /\ len s = 0 /\ 2 <= cap s
       /\ str_push_back ok_heap (Some s) Byte.x63 = Done (Some s).
Proof.
  assert (size [Byte.x61; Byte.x62; NUL] <= SIZE_MAX) as Hm by (vm_compute; congruence).
  assert ([Byte.x61; Byte.x62; NUL] !! 0%nat <> Some NUL) as H0 by discriminate.
  split; [reflexivity|]. split; [reflexivity|]. split; [exact Hm|]. split; [exact H0|].
  exact (X9_refused_copy_takes_no_byte no_heap ok_heap [Byte.x61; Byte.x62; NUL]
           2%nat Byte.x63 eq_refl eq_refl Hm H0).
Defined.

(** ** Validation of buffers *)

(** X15. [str_preflight_utf8] returns what [str_validate_utf8] returns,
    true exactly when the logical content is well-formed UTF-8; it prints
    the success line or the failure line accordingly, and nothing at all
    for a String without storage. *)
Theorem X15_preflight (s : String) :
  in_bounds s -> len s + 2 <= SIZE_MAX ->
  exists b,
    str_validate_utf8 (Some s) = Done b
    /\ (b = true <-> well_formed_utf8 (content s))
    /\ str_preflight_utf8 (Some s)
       = Done (b, match data s with
                  | None => None
                  | Some _ => Some (if b then preflight_success else preflight_failed)
                  end).
Proof.
  intros Hb Hmax.
  destruct (str_validate_utf8_spec s Hb Hmax) as (b & Hrun & Hwf).
  exists b. split; [exact Hrun|]. split; [exact Hwf|].
  unfold str_preflight_utf8, storage. unfold str_validate_utf8 in Hrun.
  destruct (data s) as [blk|].
  - rewrite Hrun. reflexivity.
  - simpl in Hrun. injection Hrun as <-. reflexivity.
Qed.

Lemma X15_preflight_witness :
  in_bounds bom_hi /\ len bom_hi + 2 <= SIZE_MAX
  /\ exists b,
       str_validate_utf8 (Some bom_hi) = Done b
       /\ (b = true <-> well_formed_utf8 (content bom_hi))
       /\ str_preflight_utf8 (Some bom_hi)
          = Done (b, match data bom_hi with
                     | None => None
                     | Some _ => Some (if b then preflight_success else preflight_failed)
                     end).
Proof.
  assert (in_bounds bom_hi) as Hb by (repeat split; vm_compute; congruence).
  assert (len bom_hi + 2 <= SIZE_MAX) as Hm by (vm_compute; congruence).
  split; [exact Hb|]. split; [exact Hm|]. exact (X15_preflight bom_hi Hb Hm).
Defined.

Lemma encoding_BOM : encoding BOM.
Proof.
  unfold BOM. apply encoding_intro;
    [ reflexivity | repeat constructor | vm_compute; congruence
    | intros [_ H]; apply H; reflexivity | vm_compute; congruence ].
Qed.

Lemma well_formed_BOM (l : list byte) :
  well_formed_utf8 (BOM ++ l) <-> well_formed_utf8 l.
Proof.
  assert (well_formed_utf8 BOM) as Hb.
  { rewrite <- (app_nil_r BOM). apply wf_encoding; [apply encoding_BOM | constructor]. }
  split; [apply well_formed_app_inv | apply well_formed_app]; exact Hb.
Qed.

(** Two buffers get the same verdict when their contents are equally
    well formed. *)
Lemma same_verdict (s t : String) :
  in_bounds s -> in_bounds t -> len s + 2 <= SIZE_MAX -> len t + 2 <= SIZE_MAX ->
  (well_formed_utf8 (content s) <-> well_formed_utf8 (content t)) ->
  str_validate_utf8 (Some s) = str_validate_utf8 (Some t).
Proof.
  intros Hs Ht Hms Hmt Hiff.
  destruct (str_validate_utf8_spec s Hs Hms) as (b1 & -> & H1).
  destruct (str_validate_utf8_spec t Ht Hmt) as (b2 & -> & H2).
  f_equal. exact (verdict_eq _ _ _ _ H1 H2 Hiff).
Qed.

(** X16. Removing the BOM never changes the verdict of the validator:
    the String is valid UTF-8 after [str_remove_utf8_bom] exactly when it
    was before. *)
Theorem X16_bom_keeps_verdict (s : String) :
  in_bounds s -> len s + 2 <= SIZE_MAX ->
  exists s' r,
    str_remove_utf8_bom (Some s) = Done (Some s', r)
    /\ str_validate_utf8 (Some s') = str_validate_utf8 (Some s).
Proof.
  intros Hb Hmax.
  destruct (decide (take 3 (content s) = BOM)) as [Hbom|Hno].
  - destruct (remove_bom_present s Hb Hbom)
      as (blk & blk' & Hd & H3 & Hrun & Hc & _ & _ & Hsz).
    eexists. exists true. split; [exact Hrun|].
    destruct Hb as [Hr Hlen]. rewrite Hd in Hlen.
    apply same_verdict; try (unfold in_bounds; simpl; lia).
    + unfold in_bounds. rewrite Hd. lia.
    + unfold content at 1. cbn [data len]. rewrite Hc, <- (content_storage s blk Hd).
      rewrite <- (take_drop 3 (content s)) at 2. rewrite Hbom.
      symmetry. apply well_formed_BOM.
  - exists s, false. split; [apply remove_bom_absent; assumption | reflexivity].
Qed.

Lemma X16_bom_keeps_verdict_witness :
  in_bounds bom_hi /\ len bom_hi + 2 <= SIZE_MAX
  /\ exists s' r,
       str_remove_utf8_bom (Some bom_hi) = Done (Some s', r)
       /\ str_validate_utf8 (Some s') = str_validate_utf8 (Some bom_hi).
Proof.
  assert (in_bounds bom_hi) as Hb by (repeat split; vm_compute; congruence).
  assert (len bom_hi + 2 <= SIZE_MAX) as Hm by (vm_compute; congruence).
  split; [exact Hb|]. split; [exact Hm|]. exact (X16_bom_keeps_verdict bom_hi Hb Hm).
Defined.

Lemma crlf_ascii (l : list byte) :
  Forall (fun b => is_crlf b = true) l -> Forall (fun b => u8 b <= 0x7F) l.
Proof.
  intros H. eapply Forall_impl; [exact H|]. intros b Hb. unfold is_crlf in Hb.
  apply orb_prop in Hb as [Hb|Hb]; apply Z.eqb_eq in Hb; lia.
Qed.

(** X17. Nor does stripping trailing CR and LF: the String is valid
    UTF-8 after [str_strip_crlf] exactly when it was before. *)
Theorem X17_crlf_keeps_verdict (s : String) :
  in_bounds s -> len s + 2 <= SIZE_MAX ->
  exists s',
    str_strip_crlf (Some s) = Done (Some s')
    /\ str_validate_utf8 (Some s') = str_validate_utf8 (Some s).
Proof.
  intros Hb Hmax.
  destruct (strip_crlf_spec s Hb)
    as (s' & removed & Hrun & Hb' & Hc & Hall & _ & _ & Hl & _).
  exists s'. split; [exact Hrun|].
  apply same_verdict; try assumption; [lia|].
  rewrite Hc. symmetry. apply well_formed_app_ascii, crlf_ascii, Hall.
Qed.

Lemma X17_crlf_keeps_verdict_witness :
  in_bounds hello_crlf /\ len hello_crlf + 2 <= SIZE_MAX
  /\ exists s',
       str_strip_crlf (Some hello_crlf) = Done (Some s')
       /\ str_validate_utf8 (Some s') = str_validate_utf8 (Some hello_crlf).
Proof.
  assert (in_bounds hello_crlf) as Hb by (repeat split; vm_compute; congruence).
  assert (len hello_crlf + 2 <= SIZE_MAX) as Hm by (vm_compute; congruence).
  split; [exact Hb|]. split; [exact Hm|].
  exact (X17_crlf_keeps_verdict hello_crlf Hb Hm).
Defined.

Lemma ready_in_bounds (s : String) : ready s -> in_bounds s.
Proof.
  intros [(Hl & Hc & Hsz) Hr]. split; [exact Hl|].
  destruct (data s); [lia | exact I].
Qed.

(** X19. Validity carries over to sums: for two buffers that have
    storage, if the first is valid UTF-8 then the String [str_plus]
    returns is valid exactly when the second is. *)
Theorem X19_plus_keeps_validity (h : allocator) (a b : String) :
  grants h = true -> Inv a -> Inv b -> data a <> None -> data b <> None ->
  len a + len b + 3 <= SIZE_MAX ->
  str_validate_utf8 (Some a) = Done true ->
  exists r,
    str_plus h (Some a) (Some b) = Done r
    /\ str_validate_utf8 (Some r) = str_validate_utf8 (Some b).
Proof.
  intros Hg Ha Hb Hda Hdb Hmax Hva.
  pose proof (content_length_Inv a Ha) as Hla.
  pose proof (content_length_Inv b Hb) as Hlb.
  pose proof (Inv_in_bounds a Ha) as Hia.
  pose proof (Inv_in_bounds b Hb) as Hib.
  pose proof Hia as [Hra _]. pose proof Hib as [Hrb _].
  destruct (String_of_Inv (content a ++ content b)) as [HIr Hcr];
    [rewrite length_app; lia|].
  exists (String_of (content a ++ content b)). split.
  - destruct (data a) as [ablk|] eqn:Ea; [|congruence].
    destruct (data b) as [bblk|] eqn:Eb; [|congruence].
    apply (plus_both h a b ablk bblk Hg Ha Hb Ea Eb). lia.
  - destruct (str_validate_utf8_spec a Hia ltac:(lia)) as (ra & Hrun & Hwa).
    rewrite Hrun in Hva. injection Hva as ->.
    pose proof (proj1 Hwa eq_refl) as Hwfa.
    apply same_verdict; try assumption; try lia.
    + apply Inv_in_bounds. exact HIr.
    + simpl. rewrite length_app. lia.
    + rewrite Hcr. split; [apply well_formed_app_inv | apply well_formed_app];
        exact Hwfa.
Qed.

Lemma X19_plus_keeps_validity_witness :
  grants ok_heap = true /\ Inv str_ab /\ Inv str_z
  /\ data str_ab <> None /\ data str_z <> None
  /\ len str_ab + len str_z + 3 <= SIZE_MAX
  /\ str_validate_utf8 (Some str_ab) = Done true
  /\ exists r,
       str_plus ok_heap (Some str_ab) (Some str_z) = Done r
       /\ str_validate_utf8 (Some r) = str_validate_utf8 (Some str_z).
Proof.
  assert (Inv str_ab) as Ha by (repeat split; vm_compute; congruence).
  assert (Inv str_z) as Hz by (repeat split; vm_compute; congruence).
  assert (data str_ab <> None) as Hda by discriminate.
  assert (data str_z <> None) as Hdz by discriminate.
  assert (len str_ab + len str_z + 3 <= SIZE_MAX) as Hm by (vm_compute; congruence).
  split; [reflexivity|]. split; [exact Ha|]. split; [exact Hz|].
  split; [exact Hda|]. split; [exact Hdz|]. split; [exact Hm|].
  split; [reflexivity|].
  exact (X19_plus_keeps_validity ok_heap str_ab str_z eq_refl Ha Hz Hda Hdz Hm eq_refl).
Defined.



(** ** The two normalizers, in either order *)

(** A string splits in one way only into a part not ending in CR or LF
    and a run of CR and LF. *)
Lemma crlf_split_unique (p1 r1 p2 r2 : list byte) :
  p1 ++ r1 = p2 ++ r2 ->
  Forall (fun b => is_crlf b = true) r1 ->
  Forall (fun b => is_crlf b = true) r2 ->
  (forall b, last p1 = Some b -> is_crlf b = false) ->
  (forall b, last p2 = Some b -> is_crlf b = false) ->
  p1 = p2 /\ r1 = r2.
Proof.
  assert (forall (p r q t : list byte),
             p = q ++ t -> Forall (fun b => is_crlf b = true) (t ++ r) ->
             (forall b, last p = Some b -> is_crlf b = false) -> t = []) as Hkey.
  { intros p r q t -> Hall Hlast.
    destruct t as [|x t _] using rev_ind; [reflexivity|]. exfalso.
    specialize (Hlast x). rewrite app_assoc, last_snoc in Hlast.
    specialize (Hlast eq_refl).
    rewrite <- app_assoc in Hall. apply Forall_app in Hall as [_ Hall].
    apply Forall_cons in Hall as [Hx _]. congruence. }
  intros Heq H1 H2 L1 L2.
  apply app_eq_inv in Heq as [(k & -> & ->)|(k & -> & ->)].
  - rewrite (Hkey _ r1 p2 k eq_refl H2 L1). rewrite app_nil_r. auto.
  - rewrite (Hkey _ r2 p1 k eq_refl H1 L2). rewrite app_nil_r. auto.
Qed.

Lemma BOM_not_crlf : Forall (fun b => is_crlf b = false) BOM.
Proof. repeat constructor. Qed.

(** A part not ending in CR or LF that leaves only CR and LF behind
    covers a leading BOM. *)
Lemma bom_inside (p r : list byte) :
  take 3 (p ++ r) = BOM -> Forall (fun b => is_crlf b = true) r ->
  take 3 p = BOM.
Proof.
  intros Hbom Hall.
  destruct (decide (3 <= length p)%nat) as [Hle|Hlt].
  - rewrite take_app_le in Hbom by lia. exact Hbom.
  - exfalso.
    assert (length (take 3 (p ++ r)) = 3%nat) as Hlen by (rewrite Hbom; reflexivity).
    rewrite length_take, length_app in Hlen.
    assert ((p ++ r) !! length p = BOM !! length p) as Hl.
    { rewrite <- Hbom. rewrite lookup_take_lt by lia. reflexivity. }
    rewrite lookup_app_r, Nat.sub_diag in Hl by lia.
    destruct r as [|x r]; [cbn [length] in Hlen; lia|]. simpl in Hl.
    apply Forall_cons in Hall as [Hx _].
    pose proof BOM_not_crlf as Hb. rewrite Forall_lookup in Hb.
    symmetry in Hl. specialize (Hb _ _ Hl). simpl in Hb. congruence.
Qed.

(** X18. The normalizers can be applied in either order:
    [str_strip_crlf] then [str_remove_utf8_bom] leaves the same logical
    bytes, length and capacity, and reports the same flag, as
    [str_remove_utf8_bom] then [str_strip_crlf]. *)
Theorem X18_normalizers_commute (s : String) :
  in_bounds s ->
  exists a1 a2 b1 b2 r,
    str_strip_crlf (Some s) = Done (Some a1)
    /\ str_remove_utf8_bom (Some a1) = Done (Some a2, r)
    /\ str_remove_utf8_bom (Some s) = Done (Some b1, r)
    /\ str_strip_crlf (Some b1) = Done (Some b2)
    /\ content a2 = content b2
    /\ len a2 = len b2
    /\ cap a2 = cap b2.
Proof.
  intros Hb.
  destruct (strip_crlf_spec s Hb)
    as (a1 & rem1 & Hrun1 & Hba1 & Hc1 & Hall1 & Hlast1 & _ & Hl1 & Hcap1 & _).
  destruct (decide (take 3 (content s) = BOM)) as [Hbom|Hno].
  - assert (take 3 (content a1) = BOM) as Hbom1.
    { rewrite Hc1 in Hbom. exact (bom_inside _ _ Hbom Hall1). }
    destruct (remove_bom_present a1 Hba1 Hbom1)
      as (ablk & ablk' & Hda & H3a & Hruna & Hca & _ & _ & Hsza).
    destruct (remove_bom_present s Hb Hbom)
      as (blk & blk' & Hd & H3 & Hrunb & Hcb & _ & _ & Hszb).
    set (b1 := {| data := Some blk'; len := len s - 3; cap := cap s |}).
    set (a2 := {| data := Some ablk'; len := len a1 - 3; cap := cap a1 |}).
    assert (content a2 = drop 3 (content a1)) as Hca2.
    { unfold content at 1. cbn [data len a2].
      rewrite Hca, (content_storage a1 ablk Hda). reflexivity. }
    assert (content b1 = drop 3 (content s)) as Hcb1.
    { unfold content at 1. cbn [data len b1].
      rewrite Hcb, (content_storage s blk Hd). reflexivity. }
    assert (in_bounds b1) as Hbb1.
    { destruct Hb as [Hr Hlen]. rewrite Hd in Hlen.
      unfold in_bounds. simpl. rewrite Hszb. lia. }
    destruct (strip_crlf_spec b1 Hbb1)
      as (b2 & rem2 & Hrun2 & _ & Hc2 & Hall2 & Hlast2 & _ & Hl2 & Hcap2 & _).
    assert (3 <= length (content a1))%nat as Hlen3.
    { apply (f_equal length) in Hbom1. rewrite length_take in Hbom1.
      unfold BOM in Hbom1. cbn [length] in Hbom1. lia. }
    assert (content a2 ++ rem1 = content b2 ++ rem2) as Heq.
    { rewrite <- Hc2, Hcb1, Hc1, Hca2. rewrite drop_app_le by lia. reflexivity. }
    destruct (crlf_split_unique _ _ _ _ Heq Hall1 Hall2) as [Hp Hr].
    { intros x Hx. apply Hlast1. rewrite Hca2 in Hx.
      rewrite <- (take_drop 3 (content a1)), last_app, Hx. reflexivity. }
    { exact Hlast2. }
    exists a1, a2, b1, b2, true.
    split; [exact Hrun1|]. split; [exact Hruna|]. split; [exact Hrunb|].
    split; [exact Hrun2|]. split; [exact Hp|].
    split; [|simpl in *; lia].
    rewrite Hl2. subst rem2. simpl. lia.
  - assert (take 3 (content a1) <> BOM) as Hno1.
    { intros Hbom1. apply Hno. rewrite Hc1.
      assert (3 <= length (content a1))%nat as Hlen3.
      { apply (f_equal length) in Hbom1. rewrite length_take in Hbom1.
        unfold BOM in Hbom1. cbn [length] in Hbom1. lia. }
      rewrite take_app_le by lia. exact Hbom1. }
    exists a1, a1, s, a1, false.
    split; [exact Hrun1|].
    split; [apply remove_bom_absent; assumption|].
    split; [apply remove_bom_absent; assumption|].
    split; [exact Hrun1|]. auto.
Qed.

Lemma X18_normalizers_commute_witness :
  in_bounds bom_hi_crlf
  /\ exists a1 a2 b1 b2 r,
       str_strip_crlf (Some bom_hi_crlf) = Done (Some a1)
       /\ str_remove_utf8_bom (Some a1) = Done (Some a2, r)
       /\ str_remove_utf8_bom (Some bom_hi_crlf) = Done (Some b1, r)
       /\ str_strip_crlf (Some b1) = Done (Some b2)
       /\ content a2 = content b2
       /\ len a2 = len b2
       /\ cap a2 = cap b2.
Proof.
  assert (in_bounds bom_hi_crlf) as Hb by (repeat split; vm_compute; congruence).
  split; [exact Hb | exact (X18_normalizers_commute bom_hi_crlf Hb)].
Defined.

(** X21. Where [str_push_back] appends (the String's fields describe its
    block, with [len < cap] when it has storage and [len = cap = 0] when it
    has none; the terminator still fits or the growth is granted; the
    doubled capacity fits [size_t]), a line ending that is appended is
    stripped again: after [str_push_back] of a CR or LF, [str_strip_crlf]
    leaves the logical bytes and the length that it would have left
    without the append. *)
Theorem X21_strip_undoes_push (h : allocator) (s : String) (c : byte) :
  ready s -> (grants h = true \/ len s + 1 < cap s) -> 2 * cap s <= SIZE_MAX ->
  is_crlf c = true ->
  exists s1 s2 s0,
    str_push_back h (Some s) c = Done (Some s1)
    /\ str_strip_crlf (Some s1) = Done (Some s2)
    /\ str_strip_crlf (Some s) = Done (Some s0)
    /\ content s2 = content s0
    /\ len s2 = len s0.
Proof.
  intros Hr Hg Hcap Hc.
  destruct (push_back_ready h s c Hr Hg Hcap) as (s1 & Hrun & HI & Hcs & Hl & _).
  destruct (strip_crlf_spec s1 (Inv_in_bounds s1 HI))
    as (s2 & rem & Hrun2 & _ & Hc2 & Hall2 & Hlast2 & _ & Hl2 & _).
  destruct (strip_crlf_spec s (ready_in_bounds s Hr))
    as (s0 & rem0 & Hrun0 & _ & Hc0 & Hall0 & Hlast0 & _ & Hl0 & _).
  assert (content s0 ++ (rem0 ++ [c]) = content s2 ++ rem) as Heq.
  { rewrite <- Hc2, Hcs, Hc0, app_assoc. reflexivity. }
  destruct (crlf_split_unique _ _ _ _ Heq) as [Hp Hrem]; try assumption.
  { apply Forall_app. split; [exact Hall0|]. constructor; [exact Hc | constructor]. }
  exists s1, s2, s0.
  split; [unfold str_push_back; rewrite Hrun; reflexivity|].
  split; [exact Hrun2|]. split; [exact Hrun0|]. split; [symmetry; exact Hp|].
  rewrite Hl2, Hl0, Hl, <- Hrem, length_app. simpl. lia.
Qed.

Lemma X21_strip_undoes_push_witness :
  ready hello_crlf /\ (grants ok_heap = true \/ len hello_crlf + 1 < cap hello_crlf)
  /\ 2 * cap hello_crlf <= SIZE_MAX /\ is_crlf Byte.x0a = true
  /\ exists s1 s2 s0,
       str_push_back ok_heap (Some hello_crlf) Byte.x0a = Done (Some s1)
       /\ str_strip_crlf (Some s1) = Done (Some s2)
       /\ str_strip_crlf (Some hello_crlf) = Done (Some s0)
       /\ content s2 = content s0
       /\ len s2 = len s0.
Proof.
  assert (ready hello_crlf) as Hr by (repeat split; vm_compute; congruence).
  assert (grants ok_heap = true \/ len hello_crlf + 1 < cap hello_crlf) as Hg
    by (left; reflexivity).
  assert (2 * cap hello_crlf <= SIZE_MAX) as Hc by (vm_compute; congruence).
  split; [exact Hr|]. split; [exact Hg|]. split; [exact Hc|]. split; [reflexivity|].
  exact (X21_strip_undoes_push ok_heap hello_crlf Byte.x0a Hr Hg Hc eq_refl).
Defined.
